(** * A shallow embedding of the movie API gateway (Hono worker)

    The development follows the TypeScript sources: [src/dbUtils.ts]
    (JSON field decoding and the WHERE-clause builder), [src/auth.ts]
    (the login gate), the movie router ([src/movieApi.ts] and the later
    revision of the same router kept in [unnamed/part_001]), the
    application [src/index.ts] that mounts it, and the R2 helper
    [src/r2Utils.ts].

    JavaScript strings are modelled as Rocq [string]s, i.e. sequences of
    8-bit code units (the Latin-1 range of UTF-16). *)

From Stdlib Require Import String Ascii List ZArith Lia Bool Sorted Permutation.
Import ListNotations.

Open Scope string_scope.

(* ------------------------------------------------------------------ *)
(** ** JavaScript string primitives *)

(** The double-quote character. *)
Definition dq : string := String (ascii_of_nat 34) EmptyString.

(** [String.prototype.trim] removes WhiteSpace and LineTerminator code
    units; in the 8-bit range these are TAB, LF, VT, FF, CR, SPACE and
    NO-BREAK SPACE (0xA0). *)
Definition is_js_space (c : ascii) : bool :=
  existsb (Nat.eqb (nat_of_ascii c)) [9; 10; 11; 12; 13; 32; 160]%nat.

Fixpoint drop_spaces (l : list ascii) : list ascii :=
  match l with
  | [] => []
  | c :: r => if is_js_space c then drop_spaces r else l
  end.

Definition js_trim (s : string) : string :=
  string_of_list_ascii
    (rev (drop_spaces (rev (drop_spaces (list_ascii_of_string s))))).

(** [s.split(sep)] for a one-character separator: every occurrence cuts,
    empty pieces are kept, and the empty string gives [[""]]. *)
Fixpoint split_chars (sep : ascii) (l : list ascii) : list (list ascii) :=
  match l with
  | [] => [[]]
  | c :: r =>
      let rest := split_chars sep r in
      if Ascii.eqb c sep then [] :: rest
      else match rest with
           | x :: xs => (c :: x) :: xs
           | [] => [[c]]
           end
  end.

Definition js_split (sep : ascii) (s : string) : list string :=
  map string_of_list_ascii (split_chars sep (list_ascii_of_string s)).

(** [s.startsWith(p)]. *)
Definition starts_with (p s : string) : bool := String.prefix p s.

(** Truthiness of an optional string value read from an object: an absent
    key ([undefined]) and the empty string are falsy. *)
Definition truthy (o : option string) : bool :=
  match o with
  | Some s => negb (String.eqb s "")
  | None => false
  end.

(** [list.join(sep)]. *)
Definition join (sep : string) (l : list string) : string :=
  String.concat sep l.

(** Number of occurrences of a character in a string. *)
Fixpoint count_char (c : ascii) (s : string) : nat :=
  match s with
  | EmptyString => 0
  | String c' r => (if Ascii.eqb c c' then 1 else 0) + count_char c r
  end.

(** Number of ['?'] placeholders in a list of SQL fragments. *)
Definition sum_q (l : list string) : nat :=
  fold_right (fun s n => count_char "?"%char s + n)%nat O l.

(* ------------------------------------------------------------------ *)
(** ** [buildMovieWhereClauseAndParams] (src/dbUtils.ts) *)

(** The filter keys the builder reads from [argsDict]; every other key of
    the argument map (StartIndex, Limit, SortBy, ...) is never read.  The
    values come from the query string, hence are strings; [None] stands for
    an absent key. *)
Record MovieArgs := mkMovieArgs {
  SearchTerm : option string;
  uniqueid_num_fuzzy : option string;
  uniqueid_num_prefix : option string;
  Genres : option string;
  ParentId : option string;
  IncludeItemTypes : option string;
  personIds : option string;
  studioIds : option string;
  seriesName : option string
}.

Definition no_filters : MovieArgs :=
  mkMovieArgs None None None None None None None None None.

(** A value bound to a positional parameter. *)
Inductive sql_value :=
| SqlText (s : string)
| SqlNum (n : Z).

(** The two arrays [conditions] and [sqlParams] the builder pushes to. *)
Record WhereState := mkWhereState {
  conditions : list string;
  sqlParams : list sql_value
}.

Definition push_cond (c : string) (st : WhereState) : WhereState :=
  mkWhereState (conditions st ++ [c])%list (sqlParams st).

Definition push_param (v : string) (st : WhereState) : WhereState :=
  mkWhereState (conditions st) (sqlParams st ++ [SqlText v])%list.

Definition search_conditions : list string :=
  ["title LIKE ?"; "plot LIKE ?"; "director LIKE ?"; "studio LIKE ?";
   "uniqueid_num LIKE ?"; "actors LIKE ?"].

Definition step_SearchTerm (a : MovieArgs) (st : WhereState) : WhereState :=
  match SearchTerm a with
  | Some t =>
      if truthy (Some t) then
        let term := "%" ++ t ++ "%" in
        push_cond ("(" ++ join " OR " search_conditions ++ ")")
          (push_param term (push_param term (push_param term
            (push_param term (push_param term (push_param term st))))))
      else st
  | None => st
  end.

Definition step_fuzzy (a : MovieArgs) (st : WhereState) : WhereState :=
  match uniqueid_num_fuzzy a with
  | Some v => if truthy (Some v)
              then push_param ("%" ++ v ++ "%") (push_cond "uniqueid_num LIKE ?" st)
              else st
  | None => st
  end.

Definition step_prefix (a : MovieArgs) (st : WhereState) : WhereState :=
  match uniqueid_num_prefix a with
  | Some v => if truthy (Some v)
              then push_param (v ++ "%") (push_cond "uniqueid_num LIKE ?" st)
              else st
  | None => st
  end.

(** The [forEach] over the comma-separated genre tokens: it pushes to the
    local [genreConditions] array and to the shared [sqlParams]. *)
Definition genre_token_step (acc : list string * list sql_value) (tok : string)
  : list string * list sql_value :=
  let genre := js_trim tok in
  if negb (String.eqb genre "") then
    ((fst acc ++ ["genres LIKE ?"])%list,
     (snd acc ++ [SqlText ("%" ++ dq ++ genre ++ dq ++ "%")])%list)
  else acc.

Definition step_Genres (a : MovieArgs) (st : WhereState) : WhereState :=
  match Genres a with
  | Some g =>
      if truthy (Some g) then
        let '(genreConditions, ps) :=
          fold_left genre_token_step (js_split "," g) ([], sqlParams st) in
        let st' := mkWhereState (conditions st) ps in
        match genreConditions with
        | [] => st'
        | _ => push_cond ("(" ++ join " OR " genreConditions ++ ")") st'
        end
      else st
  | None => st
  end.

Definition step_ParentId (a : MovieArgs) (st : WhereState) : WhereState :=
  match ParentId a with
  | Some v => if truthy (Some v) then push_param v (push_cond "root_folder = ?" st) else st
  | None => st
  end.

Definition step_IncludeItemTypes (a : MovieArgs) (st : WhereState) : WhereState :=
  match IncludeItemTypes a with
  | Some v =>
      if String.eqb v "Movie" then push_cond "(set_name IS NULL OR set_name = '')" st
      else if String.eqb v "Series" then push_cond "(set_name IS NOT NULL AND set_name != '')" st
      else st
  | None => st
  end.

Definition step_personIds (a : MovieArgs) (st : WhereState) : WhereState :=
  match personIds a with
  | Some personName =>
      if truthy (Some personName) then
        let personConditions := ["actors LIKE ?"; "director = ?"; "director LIKE ?"] in
        push_cond ("(" ++ join " OR " personConditions ++ ")")
          (push_param ("%" ++ dq ++ personName ++ dq ++ "%")
             (push_param personName
                (push_param ("%" ++ dq ++ "name" ++ dq ++ ":" ++ dq ++ personName ++ dq ++ "%") st)))
      else st
  | None => st
  end.

Definition step_studioIds (a : MovieArgs) (st : WhereState) : WhereState :=
  match studioIds a with
  | Some v => if truthy (Some v) then push_param v (push_cond "studio = ?" st) else st
  | None => st
  end.

Definition step_seriesName (a : MovieArgs) (st : WhereState) : WhereState :=
  match seriesName a with
  | Some v => if truthy (Some v) then push_param v (push_cond "set_name = ?" st) else st
  | None => st
  end.

Record WhereResult := mkWhereResult {
  clause : string;
  params : list sql_value
}.

Definition buildMovieWhereClauseAndParams (a : MovieArgs) : WhereResult :=
  let st :=
    step_seriesName a (step_studioIds a (step_personIds a
      (step_IncludeItemTypes a (step_ParentId a (step_Genres a
        (step_prefix a (step_fuzzy a (step_SearchTerm a
          (mkWhereState [] []))))))))) in
  mkWhereResult
    (match conditions st with [] => "1=1" | cs => join " AND " cs end)
    (sqlParams st).

(** *** The clause as the spec describes it

    One sub-clause per filter key with a non-empty value, in the order the
    builder visits the keys, joined with AND; the genre sub-clause is the
    OR of one [genres LIKE ?] test per non-empty trimmed token. *)

Definition genre_count (g : string) : nat :=
  length (filter (fun t => negb (String.eqb (js_trim t) "")) (js_split "," g)).

Definition key_clause (o : option string) (c : string) : option string :=
  if truthy o then Some c else None.

Definition spec_genre_clause (a : MovieArgs) : option string :=
  if truthy (Genres a) then
    match Genres a with
    | Some g =>
        match genre_count g with
        | O => None
        | k => Some ("(" ++ join " OR " (repeat "genres LIKE ?" k) ++ ")")
        end
    | None => None
    end
  else None.

Definition spec_item_types_clause (a : MovieArgs) : option string :=
  match IncludeItemTypes a with
  | Some v =>
      if String.eqb v "Movie" then Some "(set_name IS NULL OR set_name = '')"
      else if String.eqb v "Series" then Some "(set_name IS NOT NULL AND set_name != '')"
      else None
  | None => None
  end.

Fixpoint somes {A} (l : list (option A)) : list A :=
  match l with
  | [] => []
  | Some x :: r => x :: somes r
  | None :: r => somes r
  end.

Definition spec_sub_clauses (a : MovieArgs) : list string :=
  somes
    [key_clause (SearchTerm a)
       "(title LIKE ? OR plot LIKE ? OR director LIKE ? OR studio LIKE ? OR uniqueid_num LIKE ? OR actors LIKE ?)";
     key_clause (uniqueid_num_fuzzy a) "uniqueid_num LIKE ?";
     key_clause (uniqueid_num_prefix a) "uniqueid_num LIKE ?";
     spec_genre_clause a;
     key_clause (ParentId a) "root_folder = ?";
     spec_item_types_clause a;
     key_clause (personIds a) "(actors LIKE ? OR director = ? OR director LIKE ?)";
     key_clause (studioIds a) "studio = ?";
     key_clause (seriesName a) "set_name = ?"].

Definition spec_clause (a : MovieArgs) : string :=
  match spec_sub_clauses a with
  | [] => "1=1"
  | l => join " AND " l
  end.

(** Which filter keys are present in the argument map. *)
Definition present_keys (a : MovieArgs) : list bool :=
  map (fun o : option string => match o with Some _ => true | None => false end)
    [SearchTerm a; uniqueid_num_fuzzy a; uniqueid_num_prefix a; Genres a;
     ParentId a; IncludeItemTypes a; personIds a; studioIds a; seriesName a].

(** How [IncludeItemTypes] is classified by the builder. *)
Inductive ItemKind := KindMovie | KindSeries | KindOther.

Definition item_kind (o : option string) : ItemKind :=
  match o with
  | Some v =>
      if String.eqb v "Movie" then KindMovie
      else if String.eqb v "Series" then KindSeries
      else KindOther
  | None => KindOther
  end.

(** The only information about the values that the builder lets into the
    clause string: which keys are truthy, the item-type class and the number
    of non-empty genre tokens. *)
Record ArgShape := mkArgShape {
  sh_search : bool; sh_fuzzy : bool; sh_prefix : bool;
  sh_genres : nat; sh_parent : bool; sh_kind : ItemKind;
  sh_person : bool; sh_studio : bool; sh_series : bool
}.

Definition arg_shape (a : MovieArgs) : ArgShape :=
  mkArgShape (truthy (SearchTerm a)) (truthy (uniqueid_num_fuzzy a))
    (truthy (uniqueid_num_prefix a))
    (match Genres a with
     | Some g => if truthy (Some g) then genre_count g else O
     | None => O
     end)
    (truthy (ParentId a)) (item_kind (IncludeItemTypes a))
    (truthy (personIds a)) (truthy (studioIds a)) (truthy (seriesName a)).

(** Every placeholder of the accumulated conditions has its bound value. *)
Definition balanced (st : WhereState) : Prop :=
  sum_q (conditions st) = length (sqlParams st).

(* ------------------------------------------------------------------ *)
(** ** [GET /api_movies/items] (src/movieApi.ts, unnamed/part_000) *)

(** [sortMap[sortBy] || "premiered"] followed by the [validSortCols] check
    (src/movieApi.ts). *)
Definition sortMap (k : string) : option string :=
  match k with
  | "SortName" | "Name" => Some "title"
  | "DateCreated" => Some "last_scanned_date"
  | "PremiereDate" => Some "premiered"
  | "CommunityRating" => Some "rating"
  | "RunTimeTicks" => Some "runtime"
  | _ => None
  end.

Definition validSortCols : list string :=
  ["title"; "rating"; "runtime"; "premiered"; "uniqueid_num"; "last_scanned_date"; "id"].

Definition db_sort_by (sortBy : string) : string :=
  let c := match sortMap sortBy with Some c => c | None => "premiered" end in
  if existsb (String.eqb c) validSortCols then c else "premiered".

(** [sortOrder.toUpperCase() === "DESCENDING"]; the case mapping of the
    Latin-1 letters outside ASCII never produces an ASCII letter except
    for the sharp s, which maps to ["SS"], a factor that ["DESCENDING"]
    does not contain, so ASCII upper-casing decides the same test. *)
Definition ascii_upper (c : ascii) : ascii :=
  let n := nat_of_ascii c in
  if (97 <=? n)%nat && (n <=? 122)%nat then ascii_of_nat (n - 32) else c.

Fixpoint string_upper (s : string) : string :=
  match s with
  | EmptyString => EmptyString
  | String c r => String (ascii_upper c) (string_upper r)
  end.

Definition db_sort_order (sortOrder : string) : string :=
  if String.eqb (string_upper sortOrder) "DESCENDING" then "DESC" else "ASC".

Definition items_count_query (cl : string) : string :=
  "SELECT COUNT(id) as total FROM movies WHERE " ++ cl.

Definition items_data_query (cl sortBy sortOrder : string) : string :=
  "SELECT * FROM movies WHERE " ++ cl ++ " ORDER BY " ++ db_sort_by sortBy ++ " "
  ++ db_sort_order sortOrder ++ " NULLS LAST LIMIT ? OFFSET ?".

(** The two queries of the handler with the values bound to them:
    [countQuery.bind(...whereParams)] and
    [dataQuery.bind(...whereParams, limit, startIndex)]. *)
Definition items_queries (a : MovieArgs) (sortBy sortOrder : string) (limit startIndex : Z)
  : (string * list sql_value) * (string * list sql_value) :=
  let r := buildMovieWhereClauseAndParams a in
  ((items_count_query (clause r), params r),
   (items_data_query (clause r) sortBy sortOrder,
    (params r ++ [SqlNum limit; SqlNum startIndex])%list)).

(** [Math.ceil(n / p)] for integers [n >= 0] and [p > 0]: the quotient of
    two integers below 2^53 is rounded to a double that lies on the same
    side of every integer, so the ceiling is the exact integer ceiling. *)
Definition js_ceil_div (n p : Z) : Z := - ((- n) / p).

(** [TotalPages] in src/movieApi.ts: [Math.ceil(totalCount / limit) || 1]. *)
Definition total_pages (totalCount limit : Z) : Z :=
  let q := js_ceil_div totalCount limit in
  if Z.eqb q 0 then 1 else q.

(** [TotalPages] in unnamed/part_000 and unnamed/part_001:
    [Math.ceil(totalCount / limit) || 0]. *)
Definition total_pages_v2 (totalCount limit : Z) : Z :=
  let q := js_ceil_div totalCount limit in
  if Z.eqb q 0 then 0 else q.

(* ------------------------------------------------------------------ *)
(** ** [parseInt] *)

Definition digit_value (c : ascii) : option Z :=
  let n := nat_of_ascii c in
  if (48 <=? n)%nat && (n <=? 57)%nat then Some (Z.of_nat (n - 48)) else None.

Definition hex_digit_value (c : ascii) : option Z :=
  let n := nat_of_ascii c in
  if (48 <=? n)%nat && (n <=? 57)%nat then Some (Z.of_nat (n - 48))
  else if (97 <=? n)%nat && (n <=? 102)%nat then Some (Z.of_nat (n - 87))
  else if (65 <=? n)%nat && (n <=? 70)%nat then Some (Z.of_nat (n - 55))
  else None.

(** The longest prefix of digits in the given radix, with its value. *)
Fixpoint digits_prefix (dv : ascii -> option Z) (radix : Z) (l : list ascii) (acc : Z)
  : nat * Z :=
  match l with
  | [] => (O, acc)
  | c :: r =>
      match dv c with
      | Some d => let '(k, v) := digits_prefix dv radix r (acc * radix + d)%Z in (S k, v)
      | None => (O, acc)
      end
  end.

(** Leading white space and an optional sign, as [parseInt] strips them. *)
Definition parse_sign (s : string) : bool * list ascii :=
  match drop_spaces (list_ascii_of_string s) with
  | "-"%char :: r => (true, r)
  | "+"%char :: r => (false, r)
  | l => (false, l)
  end.

(** [parseInt(s, 10)]; [None] is [NaN].  A negative zero is [0]. *)
Definition js_parseInt10 (s : string) : option Z :=
  let '(neg, l) := parse_sign s in
  match digits_prefix digit_value 10 l 0 with
  | (O, _) => None
  | (_, v) => Some (if neg then (- v)%Z else v)
  end.

(** [parseInt(s)] without a radix: a ["0x"] or ["0X"] prefix selects
    radix 16, anything else radix 10. *)
Definition js_parseInt (s : string) : option Z :=
  let '(neg, l) := parse_sign s in
  let '(dv, radix, l') :=
    match l with
    | "0"%char :: "x"%char :: r | "0"%char :: "X"%char :: r => (hex_digit_value, 16%Z, r)
    | _ => (digit_value, 10%Z, l)
    end in
  match digits_prefix dv radix l' 0 with
  | (O, _) => None
  | (_, v) => Some (if neg then (- v)%Z else v)
  end.

(* ------------------------------------------------------------------ *)
(** ** [requireLogin] (src/auth.ts) *)

(** The payload [verifyJwt] returns when the token verifies. *)
Record JwtPayload := mkJwtPayload { loggedIn : bool }.

(** What the middleware does with the request. *)
Inductive AuthOutcome :=
| PassToNext
  (** [c.json({ error: 'Unauthorized', message }, 401)] *)
| Unauthorized401 (message : string) (cookieDeleted : bool)
  (** [c.redirect(LOGIN_PATH, status)] *)
| RedirectTo (location : string) (status : Z) (cookieDeleted : bool).

Definition LOGIN_PATH : string := "/login".

Definition allowedPaths : list string := [LOGIN_PATH; "/login"; "/static/"; "/favicon.ico"].

Definition is_api_path (path : string) : bool :=
  starts_with "/api_movies/" path || starts_with "/api/" path.

(** [requireLogin] for a request with URL path [path] and the value of the
    [auth_session] cookie.  [verifyJwt] (hono's [verify] under the session
    secret, [null] on any failure) is a parameter. *)
Definition requireLogin (verifyJwt : string -> option JwtPayload)
    (path : string) (cookie : option string) : AuthOutcome :=
  if existsb (fun allowedPath => starts_with allowedPath path) allowedPaths then PassToNext
  else
    let reject (msg : string) (deleted : bool) :=
      if is_api_path path then Unauthorized401 msg deleted
      else RedirectTo LOGIN_PATH 307 deleted in
    match cookie with
    | None => reject "Authentication required." false
    | Some token =>
        if String.eqb token "" then reject "Authentication required." false
        else match verifyJwt token with
             | Some payload =>
                 if loggedIn payload then PassToNext
                 else reject "Invalid session." true
             | None => reject "Invalid session." true
             end
    end.

(** A session that does not let the request through: no cookie, an empty
    cookie, a token that fails verification, or a payload that does not
    say [loggedIn]. *)
Definition session_rejected (verifyJwt : string -> option JwtPayload)
    (cookie : option string) : Prop :=
  match cookie with
  | None => True
  | Some token =>
      token = "" \/
      match verifyJwt token with
      | None => True
      | Some p => loggedIn p = false
      end
  end.

(* ------------------------------------------------------------------ *)
(** ** [GET /items/:item_id_or_num/precomputed_related] *)

Section Related.

(** A movie dictionary as produced by [movieRowToDict]; only its [Id]
    (the row's numeric [id]) matters to the blending. *)
Variable Movie : Type.
Variable Id : Movie -> Z.

Definition id_mem (x : Z) (s : list Z) : bool := existsb (Z.eqb x) s.

(** The [for ... of genreCandidatesList] loop: [seen] is the set
    [relatedIdsSoFar], [acc] is [genreRandomRelatedList]. *)
Fixpoint genre_random_loop (numPicks : Z) (seen : list Z) (acc : list Movie)
    (cands : list Movie) : list Movie :=
  match cands with
  | [] => acc
  | movieDict :: rest =>
      if (numPicks <=? Z.of_nat (length acc))%Z then acc
      else if negb (Z.eqb (Id movieDict) 0) && negb (id_mem (Id movieDict) seen)
      then genre_random_loop numPicks (Id movieDict :: seen) (acc ++ [movieDict])%list rest
      else genre_random_loop numPicks seen acc rest
  end.

(** [NUM_RANDOM_GENRE_PICKS > 0] for a value that may be [NaN]. *)
Definition js_positive (n : option Z) : bool :=
  match n with Some z => (0 <? z)%Z | None => false end.

(** The appended suffix [genreRandomRelatedList] for the ranked list
    [primaryRelatedList] and the fetched candidates. *)
Definition genre_random_related (numPicks : option Z)
    (primaryRelatedList genreCandidatesList : list Movie) : list Movie :=
  match numPicks with
  | Some n =>
      if js_positive (Some n)
      then genre_random_loop n (map Id primaryRelatedList) [] genreCandidatesList
      else []
  | None => []
  end.

(** The JSON array of the response: [[...primaryRelatedList, ...genreRandomRelatedList]]. *)
Definition precomputed_related_response (numPicks : option Z)
    (primaryRelatedList genreCandidatesList : list Movie) : list Movie :=
  (primaryRelatedList ++ genre_random_related numPicks primaryRelatedList genreCandidatesList)%list.

End Related.

(** [NUM_RANDOM_GENRE_PICKS] in src/movieApi.ts:
    [c.env.NUM_RANDOM_GENRE_PICKS ? parseInt(c.env.NUM_RANDOM_GENRE_PICKS) : 2];
    unnamed/part_001 has the constant 2. *)
Definition num_random_genre_picks (env : option string) : option Z :=
  if truthy env then match env with Some s => js_parseInt s | None => Some 2%Z end
  else Some 2%Z.

(* ------------------------------------------------------------------ *)
(** ** [serveMovieImage] (unnamed/part_001) *)

(** The columns of a [movies] row the image handler reads. *)
Record MovieRow := mkMovieRow {
  row_id : Z;
  uniqueid_num : option string
}.

(** [SELECT uniqueid_num FROM movies WHERE id = ?] with [.first()]. *)
Definition select_by_id (db : list MovieRow) (n : Z) : option MovieRow :=
  find (fun r => Z.eqb (row_id r) n) db.

(** [.replace(/\/\//g, '/')]: non-overlapping matches, left to right. *)
Fixpoint collapse_double_slash (l : list ascii) : list ascii :=
  match l with
  | "/"%char :: "/"%char :: r => "/"%char :: collapse_double_slash r
  | c :: r => c :: collapse_double_slash r
  | [] => []
  end.

Definition replace_double_slash (s : string) : string :=
  string_of_list_ascii (collapse_double_slash (list_ascii_of_string s)).

(** [s.split('-')[0]]. *)
Definition before_dash (s : string) : string :=
  hd "" (js_split "-" s).

Inductive ImageResponse :=
| ImageText (status : Z) (body : string)
  (** [c.redirect(newUrl, 301)] *)
| ImageRedirect (location : string) (status : Z)
  (** [serveFileFromR2(c, c.env.MOVIES_ASSETS_BUCKET, r2Key)] *)
| ImageFromR2 (r2Key : string).

Definition image_r2_key (basePrefix imageType effectiveId : string) : string :=
  replace_double_slash
    (basePrefix ++ "/movies/movies_poster/" ++ before_dash effectiveId ++ "/"
     ++ effectiveId ++ "_" ++ imageType ++ ".avif").

(** [serveMovieImage(c, imageType)] for the route parameter [movieIdOrNum];
    [basePrefix] is [c.env.MOVIE_ASSETS_R2_BASE_PREFIX]. *)
Definition serveMovieImage (basePrefix : string) (db : list MovieRow)
    (imageType movieIdOrNum : string) : ImageResponse :=
  let not_found := ImageText 404 (imageType ++ " not found for ID " ++ movieIdOrNum) in
  match js_parseInt10 movieIdOrNum with
  | Some n =>
      match select_by_id db n with
      | Some dbRow =>
          match uniqueid_num dbRow with
          | Some u =>
              if String.eqb u "" then not_found
              else if negb (String.eqb u movieIdOrNum)
              then ImageRedirect ("/api_movies/images/" ++ imageType ++ "/" ++ u) 301
              else ImageFromR2 (image_r2_key basePrefix imageType u)
          | None => not_found
          end
      | None => not_found
      end
  | None => ImageFromR2 (image_r2_key basePrefix imageType movieIdOrNum)
  end.

(** Strip a prefix. *)
Fixpoint strip_prefix (p s : string) : option string :=
  match p, s with
  | EmptyString, _ => Some s
  | String c p', String c' s' => if Ascii.eqb c c' then strip_prefix p' s' else None
  | String _ _, EmptyString => None
  end.

(** The two routes [/api_movies/images/poster/:movie_id_or_num{.+}] and
    [/api_movies/images/fanart/:movie_id_or_num{.+}] (mounted under
    [/api_movies] by src/index.ts).  The parameter is taken as it stands in
    the path; the identifiers used below need no percent-decoding. *)
Definition route_image (path : string) : option (string * string) :=
  match strip_prefix "/api_movies/images/poster/" path with
  | Some p => if String.eqb p "" then None else Some ("poster", p)
  | None =>
      match strip_prefix "/api_movies/images/fanart/" path with
      | Some p => if String.eqb p "" then None else Some ("fanart", p)
      | None => None
      end
  end.

(** A client (logged in) that requests [path] and follows redirects, at
    most [fuel] requests: the responses it receives, in order. *)
Fixpoint follow_image_requests (fuel : nat) (basePrefix : string) (db : list MovieRow)
    (path : string) : list ImageResponse :=
  match fuel with
  | O => []
  | S fuel' =>
      match route_image path with
      | None => []
      | Some (imageType, param) =>
          let r := serveMovieImage basePrefix db imageType param in
          match r with
          | ImageRedirect location _ => r :: follow_image_requests fuel' basePrefix db location
          | _ => [r]
          end
      end
  end.

(** A response that is a 301 redirect. *)
Definition redirect_301 (r : ImageResponse) : Prop :=
  exists location, r = ImageRedirect location 301.

(** Two rows whose external identifiers name each other's ids. *)
Definition loop_db : list MovieRow :=
  [mkMovieRow 1 (Some "2"); mkMovieRow 2 (Some "1")].

(* ------------------------------------------------------------------ *)
(** ** [JSON.stringify] and [JSON.parse] *)

(** JSON values.  A number is kept in the decimal form [JSON.stringify]
    prints it in: a sign, its significant digits and a power of ten, so
    [JNum false ["1";"2";"5"] (-1)] is 12.5.  An object is the list of its
    own properties in enumeration order.  Strings are 8-bit; code points
    above 0xFF are outside the model. *)
Set Warnings "-register-all".
Inductive json :=
| JNull
| JBool (b : bool)
| JNum (negative : bool) (digits : list ascii) (exponent : Z)
| JStr (s : string)
| JArr (items : list json)
| JObj (props : list (string * json)).

Definition quote_char : ascii := ascii_of_nat 34.
Definition bslash : ascii := ascii_of_nat 92.

Definition is_digit (c : ascii) : bool :=
  let n := nat_of_ascii c in (48 <=? n)%nat && (n <=? 57)%nat.

Definition is_zero_char (c : ascii) : bool := Ascii.eqb c "0"%char.

(** The canonical form of a finite number: zero is [0] itself; otherwise
    the digits have no leading and no trailing zero. *)
Definition number_wf (neg : bool) (ds : list ascii) (e : Z) : bool :=
  (match ds with ["0"%char] => true | _ => false end && Z.eqb e 0 && negb neg)
  || (forallb is_digit ds
      && match ds with c :: _ => negb (is_zero_char c) | [] => false end
      && match rev ds with c :: _ => negb (is_zero_char c) | [] => false end).

Fixpoint keys_distinct (ks : list string) : bool :=
  match ks with
  | [] => true
  | k :: r => negb (existsb (String.eqb k) r) && keys_distinct r
  end.

(** Values a JavaScript program can hold: canonical numbers, and objects
    without repeated keys. *)
Fixpoint json_wf (v : json) : bool :=
  match v with
  | JNum neg ds e => number_wf neg ds e
  | JArr vs => forallb json_wf vs
  | JObj ps => keys_distinct (map fst ps) && forallb (fun kv => json_wf (snd kv)) ps
  | _ => true
  end.

(** Decimal digits of a non-negative integer. *)
Definition digit_char (d : Z) : ascii := ascii_of_nat (48 + Z.to_nat d).

Fixpoint decimal_fuel (fuel : nat) (z : Z) : list ascii :=
  match fuel with
  | O => []
  | S f =>
      if (z <? 10)%Z then [digit_char z]
      else (decimal_fuel f (z / 10) ++ [digit_char (z mod 10)])%list
  end.

Definition decimal (z : Z) : list ascii := decimal_fuel (S (Z.to_nat z)) z.

(** Number::toString for the number [ds * 10^e] with [ds] canonical: [k]
    digits and the decimal point after position [n = k + e]. *)
Definition format_body (ds : list ascii) (e : Z) : list ascii :=
  let k := Z.of_nat (length ds) in
  let n := (k + e)%Z in
  if (k <=? n)%Z && (n <=? 21)%Z then (ds ++ repeat "0"%char (Z.to_nat e))%list
  else if (0 <? n)%Z && (n <=? 21)%Z then
    (firstn (Z.to_nat n) ds ++ "."%char :: skipn (Z.to_nat n) ds)%list
  else if (-6 <? n)%Z && (n <=? 0)%Z then
    "0"%char :: "."%char :: (repeat "0"%char (Z.to_nat (- n)) ++ ds)%list
  else
    (firstn 1 ds ++ (if (1 <? k)%Z then "."%char :: skipn 1 ds else [])
     ++ "e"%char :: (if (0 <=? n - 1)%Z then "+"%char else "-"%char)
     :: decimal (Z.abs (n - 1)))%list.

(** Number::toString for [(-1)^neg * ds * 10^e]. *)
Definition format_number (neg : bool) (ds : list ascii) (e : Z) : list ascii :=
  if neg then "-"%char :: format_body ds e else format_body ds e.

Definition hex_char (n : nat) : ascii :=
  if (n <? 10)%nat then ascii_of_nat (48 + n) else ascii_of_nat (87 + n).

(** QuoteJSONString, one character. *)
Definition escape_char (c : ascii) : list ascii :=
  let n := nat_of_ascii c in
  if Ascii.eqb c quote_char then [bslash; quote_char]
  else if Ascii.eqb c bslash then [bslash; bslash]
  else if (n =? 8)%nat then [bslash; "b"%char]
  else if (n =? 9)%nat then [bslash; "t"%char]
  else if (n =? 10)%nat then [bslash; "n"%char]
  else if (n =? 12)%nat then [bslash; "f"%char]
  else if (n =? 13)%nat then [bslash; "r"%char]
  else if (n <? 32)%nat then
    [bslash; "u"%char; "0"%char; "0"%char; hex_char (n / 16); hex_char (n mod 16)]
  else [c].

Definition quote_l (l : list ascii) : list ascii :=
  (quote_char :: flat_map escape_char l ++ [quote_char])%list.

Definition join_comma (l : list (list ascii)) : list ascii :=
  match l with
  | [] => []
  | x :: r => (x ++ flat_map (fun y => ","%char :: y) r)%list
  end.

Fixpoint stringify (v : json) : list ascii :=
  match v with
  | JNull => list_ascii_of_string "null"
  | JBool true => list_ascii_of_string "true"
  | JBool false => list_ascii_of_string "false"
  | JNum neg ds e => format_number neg ds e
  | JStr s => quote_l (list_ascii_of_string s)
  | JArr vs => ("["%char :: join_comma (map stringify vs) ++ ["]"%char])%list
  | JObj ps =>
      ("{"%char
       :: join_comma (map (fun kv => quote_l (list_ascii_of_string (fst kv))
                                     ++ ":"%char :: stringify (snd kv)) ps)
       ++ ["}"%char])%list
  end.

(** [JSON.stringify(v)]. *)
Definition JSON_stringify (v : json) : string := string_of_list_ascii (stringify v).

(** JSON white space: space, tab, line feed, carriage return. *)
Definition is_json_ws (c : ascii) : bool :=
  let n := nat_of_ascii c in
  (n =? 32)%nat || (n =? 9)%nat || (n =? 10)%nat || (n =? 13)%nat.

Fixpoint skip_ws (l : list ascii) : list ascii :=
  match l with
  | c :: r => if is_json_ws c then skip_ws r else l
  | [] => []
  end.

(** Whether a list starts with the character [c]. *)
Definition head_is (c : ascii) (l : list ascii) : bool :=
  match l with
  | x :: _ => Ascii.eqb x c
  | [] => false
  end.

(** What may follow a value inside a JSON text produced by [stringify]. *)
Definition ends_value (rest : list ascii) : bool :=
  match rest with
  | [] => true
  | c :: _ => Ascii.eqb c ","%char || Ascii.eqb c "]"%char || Ascii.eqb c "}"%char
  end.

Fixpoint span_digits (l : list ascii) : list ascii * list ascii :=
  match l with
  | c :: r =>
      if is_digit c then let '(ds, r') := span_digits r in (c :: ds, r') else ([], l)
  | [] => ([], [])
  end.

Definition digits_value (ds : list ascii) : Z :=
  fold_left (fun acc c => (acc * 10 + Z.of_nat (nat_of_ascii c - 48))%Z) ds 0%Z.

Fixpoint drop_zeros (l : list ascii) : list ascii :=
  match l with
  | c :: r => if is_zero_char c then drop_zeros r else l
  | [] => []
  end.

(** The number [(-1)^neg * ds * 10^e] in canonical form ([-0] becomes [0]). *)
Definition normalize_number (neg : bool) (ds : list ascii) (e : Z) : json :=
  match drop_zeros ds with
  | [] => JNum false ["0"%char] 0
  | ds1 =>
      let r := drop_zeros (rev ds1) in
      JNum neg (rev r) (e + Z.of_nat (length ds1 - length r))
  end.

(** [int]: [0], or a non-zero digit followed by digits. *)
Definition parse_int_part (l : list ascii) : option (list ascii * list ascii) :=
  match l with
  | c :: r =>
      if is_zero_char c then Some (["0"%char], r)
      else if is_digit c then let '(ds, r') := span_digits r in Some (c :: ds, r')
      else None
  | [] => None
  end.

(** [frac]: optional, a point and at least one digit. *)
Definition parse_frac_part (l : list ascii) : option (list ascii * list ascii) :=
  match l with
  | c :: r =>
      if Ascii.eqb c "."%char then
        match span_digits r with
        | ([], _) => None
        | (fs, r') => Some (fs, r')
        end
      else Some ([], l)
  | [] => Some ([], [])
  end.

(** [exp]: optional, [e] or [E], an optional sign, at least one digit. *)
Definition parse_exp_part (l : list ascii) : option (Z * list ascii) :=
  match l with
  | c :: r =>
      if Ascii.eqb c "e"%char || Ascii.eqb c "E"%char then
        let '(neg, r1) :=
          match r with
          | s :: r' =>
              if Ascii.eqb s "+"%char then (false, r')
              else if Ascii.eqb s "-"%char then (true, r')
              else (false, r)
          | [] => (false, r)
          end in
        match span_digits r1 with
        | ([], _) => None
        | (es, r2) => Some (if neg then (- digits_value es)%Z else digits_value es, r2)
        end
      else Some (0%Z, l)
  | [] => Some (0%Z, [])
  end.

(** A number after its optional minus sign. *)
Definition parse_unsigned (neg : bool) (l1 : list ascii) : option (json * list ascii) :=
  match parse_int_part l1 with
  | None => None
  | Some (ip, l2) =>
      match parse_frac_part l2 with
      | None => None
      | Some (fp, l3) =>
          match parse_exp_part l3 with
          | None => None
          | Some (x, l4) =>
              Some (normalize_number neg (ip ++ fp)%list (x - Z.of_nat (length fp))%Z, l4)
          end
      end
  end.

Definition parse_number (l : list ascii) : option (json * list ascii) :=
  match l with
  | c :: r => if Ascii.eqb c "-"%char then parse_unsigned true r else parse_unsigned false l
  | [] => None
  end.

(** Simple escapes after a backslash. *)
Definition unescape_simple (x : ascii) : option ascii :=
  if Ascii.eqb x quote_char then Some quote_char
  else if Ascii.eqb x bslash then Some bslash
  else if Ascii.eqb x "/"%char then Some "/"%char
  else if Ascii.eqb x "b"%char then Some (ascii_of_nat 8)
  else if Ascii.eqb x "f"%char then Some (ascii_of_nat 12)
  else if Ascii.eqb x "n"%char then Some (ascii_of_nat 10)
  else if Ascii.eqb x "r"%char then Some (ascii_of_nat 13)
  else if Ascii.eqb x "t"%char then Some (ascii_of_nat 9)
  else None.

(** [\uXXXX]; code units above 0xFF are outside the 8-bit model. *)
Definition hex4 (h1 h2 h3 h4 : ascii) : option ascii :=
  match hex_digit_value h1, hex_digit_value h2, hex_digit_value h3, hex_digit_value h4 with
  | Some a, Some b, Some c, Some d =>
      let code := (((a * 16 + b) * 16 + c) * 16 + d)%Z in
      if (code <? 256)%Z then Some (ascii_of_nat (Z.to_nat code)) else None
  | _, _, _, _ => None
  end.

(** The characters of a string literal after its opening quote, up to and
    including the closing quote. *)
Fixpoint parse_string_body (l : list ascii) : option (list ascii * list ascii) :=
  match l with
  | [] => None
  | c :: r =>
      if Ascii.eqb c quote_char then Some ([], r)
      else if Ascii.eqb c bslash then
        match r with
        | x :: r1 =>
            match unescape_simple x with
            | Some ch =>
                match parse_string_body r1 with
                | Some (s, r') => Some (ch :: s, r')
                | None => None
                end
            | None =>
                if Ascii.eqb x "u"%char then
                  match r1 with
                  | h1 :: h2 :: h3 :: h4 :: r2 =>
                      match hex4 h1 h2 h3 h4, parse_string_body r2 with
                      | Some ch, Some (s, r') => Some (ch :: s, r')
                      | _, _ => None
                      end
                  | _ => None
                  end
                else None
            end
        | [] => None
        end
      else if (nat_of_ascii c <? 32)%nat then None
      else
        match parse_string_body r with
        | Some (s, r') => Some (c :: s, r')
        | None => None
        end
  end.

(** A repeated key keeps its first position and takes the last value. *)
Fixpoint set_prop (k : string) (v : json) (acc : list (string * json))
  : list (string * json) :=
  match acc with
  | [] => [(k, v)]
  | (k', v') :: r => if String.eqb k k' then (k', v) :: r else (k', v') :: set_prop k v r
  end.

(** A JSON value after optional white space; [fuel] bounds the nesting
    (every call consumes a character before it recurses). *)
Fixpoint parse_value (fuel : nat) (l : list ascii) : option (json * list ascii) :=
  match fuel with
  | O => None
  | S f =>
      match skip_ws l with
      | [] => None
      | c :: r =>
          if Ascii.eqb c "-"%char || is_digit c then parse_number (c :: r)
          else if Ascii.eqb c "n"%char then
            match r with
            | "u"%char :: "l"%char :: "l"%char :: r' => Some (JNull, r')
            | _ => None
            end
          else if Ascii.eqb c "t"%char then
            match r with
            | "r"%char :: "u"%char :: "e"%char :: r' => Some (JBool true, r')
            | _ => None
            end
          else if Ascii.eqb c "f"%char then
            match r with
            | "a"%char :: "l"%char :: "s"%char :: "e"%char :: r' => Some (JBool false, r')
            | _ => None
            end
          else if Ascii.eqb c quote_char then
            match parse_string_body r with
            | Some (s, r') => Some (JStr (string_of_list_ascii s), r')
            | None => None
            end
          else if Ascii.eqb c "["%char then
            let r0 := skip_ws r in
            if head_is "]"%char r0 then Some (JArr [], tl r0)
            else
              match parse_value f r0 with
              | Some (v, r1) =>
                  match parse_array_tail f r1 with
                  | Some (vs, r2) => Some (JArr (v :: vs), r2)
                  | None => None
                  end
              | None => None
              end
          else if Ascii.eqb c "{"%char then
            let r0 := skip_ws r in
            if head_is "}"%char r0 then Some (JObj [], tl r0)
            else
              match parse_member f r0 with
              | Some ((k, v), r1) =>
                  match parse_object_tail f [(k, v)] r1 with
                  | Some (ps, r2) => Some (JObj ps, r2)
                  | None => None
                  end
              | None => None
              end
          else None
      end
  end
(** The rest of an array after an element: [, value] ... [\]]. *)
with parse_array_tail (fuel : nat) (l : list ascii) : option (list json * list ascii) :=
  match fuel with
  | O => None
  | S f =>
      match skip_ws l with
      | ","%char :: r =>
          match parse_value f r with
          | Some (v, r1) =>
              match parse_array_tail f r1 with
              | Some (vs, r2) => Some (v :: vs, r2)
              | None => None
              end
          | None => None
          end
      | "]"%char :: r => Some ([], r)
      | _ => None
      end
  end
(** [string : value]. *)
with parse_member (fuel : nat) (l : list ascii) : option ((string * json) * list ascii) :=
  match fuel with
  | O => None
  | S f =>
      match skip_ws l with
      | c :: r =>
          if Ascii.eqb c quote_char then
            match parse_string_body r with
            | Some (k, r1) =>
                match skip_ws r1 with
                | ":"%char :: r2 =>
                    match parse_value f r2 with
                    | Some (v, r3) => Some ((string_of_list_ascii k, v), r3)
                    | None => None
                    end
                | _ => None
                end
            | None => None
            end
          else None
      | [] => None
      end
  end
(** The rest of an object after a member: [, member] ... [}]. *)
with parse_object_tail (fuel : nat) (acc : list (string * json)) (l : list ascii)
  : option (list (string * json) * list ascii) :=
  match fuel with
  | O => None
  | S f =>
      match skip_ws l with
      | ","%char :: r =>
          match parse_member f r with
          | Some ((k, v), r1) => parse_object_tail f (set_prop k v acc) r1
          | None => None
          end
      | "}"%char :: r => Some (acc, r)
      | _ => None
      end
  end.

(** [JSON.parse(text)]; [None] when it throws a SyntaxError. *)
Definition JSON_parse (text : string) : option json :=
  let l := list_ascii_of_string text in
  match parse_value (S (length l)) l with
  | Some (v, r) => match skip_ws r with [] => Some v | _ => None end
  | None => None
  end.

(** The arguments [parseJsonField] receives: a JSON value, or [undefined]
    ([None]). *)
Definition js_value := option json.

(** [parseJsonField(value)] with the default [defaultValue = []]. *)
Definition parseJsonField (value : js_value) : list json :=
  match value with
  | Some (JStr s) =>
      if negb (String.eqb s "") then
        match JSON_parse s with
        | Some (JArr vs) => vs
        | Some parsed => [parsed]
        | None =>
            map JStr (filter (fun t => negb (String.eqb t "")) (map js_trim (js_split ","%char s)))
        end
      else []
  | Some (JArr vs) => vs
  | _ => []
  end.

(** Induction over JSON values, through the lists they contain. *)
Fixpoint json_ind' (P : json -> Prop)
    (Hnull : P JNull) (Hbool : forall b, P (JBool b))
    (Hnum : forall neg ds e, P (JNum neg ds e)) (Hstr : forall s, P (JStr s))
    (Harr : forall vs, Forall P vs -> P (JArr vs))
    (Hobj : forall ps, Forall (fun kv => P (snd kv)) ps -> P (JObj ps))
    (v : json) {struct v} : P v :=
  match v with
  | JNull => Hnull
  | JBool b => Hbool b
  | JNum neg ds e => Hnum neg ds e
  | JStr s => Hstr s
  | JArr vs =>
      Harr vs ((fix go (l : list json) : Forall P l :=
                  match l with
                  | [] => Forall_nil P
                  | x :: r => Forall_cons x (json_ind' P Hnull Hbool Hnum Hstr Harr Hobj x) (go r)
                  end) vs)
  | JObj ps =>
      Hobj ps ((fix go (l : list (string * json)) : Forall (fun kv => P (snd kv)) l :=
                  match l with
                  | [] => Forall_nil _
                  | (k, x) :: r =>
                      Forall_cons (k, x) (json_ind' P Hnull Hbool Hnum Hstr Harr Hobj x) (go r)
                  end) ps)
  end.

(** [v] reads back from its text followed by any separator. *)
Definition round_trips (v : json) : Prop :=
  json_wf v = true ->
  forall (f : nat) (rest : list ascii), ends_value rest = true ->
  (length (stringify v) < f)%nat -> parse_value f (stringify v ++ rest)%list = Some (v, rest).

(* ------------------------------------------------------------------ *)
(** ** [POST /movie_collections] *)

(** An HTTP response: [c.json(body, status)] or [c.text(body, status)]. *)
Inductive HttpResponse :=
| JsonResp (status : Z) (body : json)
| TextResp (status : Z) (body : string).

(** A JavaScript number holding the integer [z], as a JSON value. *)
Definition json_of_Z (z : Z) : json :=
  normalize_number (z <? 0)%Z (decimal (Z.abs z)) 0.

(** [obj.k] on the properties of a parsed object ([None] is [undefined]). *)
Definition get_prop (k : string) (ps : list (string * json)) : option json :=
  option_map snd (find (fun kv => String.eqb (fst kv) k) ps).

(** [String.prototype.includes]. *)
Definition js_includes (hay needle : string) : bool :=
  match String.index 0 needle hay with Some _ => true | None => false end.

(** The response of [app.onError] in src/index.ts for an error that is not
    an [HTTPException], outside local development. *)
Definition onError_response : HttpResponse :=
  JsonResp 500 (JObj [("error", JStr "Internal Server Error");
                      ("message", JStr "An unexpected error occurred.")]).

(** A row of [movie_collections]. *)
Record CollectionRow := mkCollectionRow { coll_id : Z; coll_name : string }.

(** Modelled from the spec: the schema of [movie_collections] is not part of
    the sources.  Its [name] column is UNIQUE, so inserting a name already
    present fails with D1's constraint message and leaves the table as it
    was; otherwise the row is added with the next [INTEGER PRIMARY KEY]
    (one more than the largest id) and [RETURNING id] yields that id. *)
Definition insert_collection (db : list CollectionRow) (name : string)
  : (list CollectionRow * Z) + string :=
  if existsb (fun r => String.eqb (coll_name r) name) db
  then inr ("D1_ERROR: UNIQUE constraint failed: movie_collections.name: SQLITE_CONSTRAINT")
  else
    let nid := (fold_left (fun m r => Z.max m (coll_id r)) db 0 + 1)%Z in
    inl ((db ++ [mkCollectionRow nid name])%list, nid).

(** The value of [payload.name?.trim()]: [inl None] is [undefined],
    [inl (Some s)] a string, and [inr tt] a thrown [TypeError] ([null.name],
    or [trim] called on a value that is not a string). *)
Definition payload_name_trim (payload : json) : option string + unit :=
  match payload with
  | JNull => inr tt
  | JObj ps =>
      match get_prop "name" ps with
      | None | Some JNull => inl None
      | Some (JStr s) => inl (Some (js_trim s))
      | Some _ => inr tt
      end
  | _ => inl None
  end.

(** The handler [movieApiApp.post('/movie_collections', ...)] of
    unnamed/part_001 (the same code is in unnamed/part_000) for the request
    text [body]: the response and the table afterwards.  A body
    [c.req.json()] cannot parse, and a [TypeError], reach [app.onError]. *)
Definition postMovieCollection (db : list CollectionRow) (body : string)
  : HttpResponse * list CollectionRow :=
  match JSON_parse body with
  | None => (onError_response, db)
  | Some payload =>
      match payload_name_trim payload with
      | inr _ => (onError_response, db)
      | inl collectionName =>
          match collectionName with
          | None => (JsonResp 400 (JObj [("error", JStr "Name required")]), db)
          | Some n =>
              if String.eqb n "" then
                (JsonResp 400 (JObj [("error", JStr "Name required")]), db)
              else
                let fail (msg : string) (db' : list CollectionRow) :=
                  if js_includes msg "UNIQUE constraint failed"
                  then (JsonResp 409 (JObj [("error", JStr "Collection name already exists")]), db')
                  else (JsonResp 500 (JObj [("error", JStr "Database error");
                                            ("details", JStr msg)]), db') in
                match insert_collection db n with
                | inr msg => fail msg db
                | inl (db', nid) =>
                    if negb (Z.eqb nid 0)
                    then (JsonResp 201 (JObj [("id", json_of_Z nid); ("name", JStr n)]), db')
                    else fail "Failed to get ID of new collection." db'
                end
          end
      end
  end.

(** [app.notFound] of src/index.ts for the URL path [path]. *)
Definition notFound_response (path : string) : HttpResponse :=
  if starts_with "/api" path
  then JsonResp 404 (JObj [("error", JStr "Not Found");
                           ("message", JStr "API endpoint not found.")])
  else TextResp 404 "Resource Not Found".

(** Where a POST whose path lies under the [/api_movies] mount goes once
    [requireLogin] let it through: a handler of src/movieApi.ts (the router
    src/index.ts mounts), or the not-found response. *)
Inductive MountedPost :=
| MovieApiRoute (route : string)
| FallThrough (r : HttpResponse).

(** The POST routes src/movieApi.ts registers; its [movie_collections]
    routes are inside a block comment. Only
    ['/items/:item_id_or_num/like'] is left. *)
Definition movieApi_post_route (sub : string) : option string :=
  match js_split "/"%char sub with
  | [e; items; id; like] =>
      if String.eqb e "" && String.eqb items "items" && negb (String.eqb id "")
         && String.eqb like "like"
      then Some "/items/:item_id_or_num/like" else None
  | _ => None
  end.

Definition mounted_movieApi_post (sub : string) : MountedPost :=
  match movieApi_post_route sub with
  | Some route => MovieApiRoute route
  | None => FallThrough (notFound_response ("/api_movies" ++ sub))
  end.

(* ------------------------------------------------------------------ *)
(** ** [getClientIp] (src/auth.ts) *)

(** ASCII lower-casing, as header names are compared. *)
Definition ascii_lower (c : ascii) : ascii :=
  let n := nat_of_ascii c in
  if (65 <=? n)%nat && (n <=? 90)%nat then ascii_of_nat (n + 32) else c.

Fixpoint string_lower_ascii (s : string) : string :=
  match s with
  | EmptyString => EmptyString
  | String c r => String (ascii_lower c) (string_lower_ascii r)
  end.

(** The request headers in arrival order.  [Headers.get(name)] matches
    names case-insensitively and joins the values of a repeated header
    with [", "]; [None] is [null]. *)
Definition headers_get (hs : list (string * string)) (name : string) : option string :=
  match filter (fun h => String.eqb (string_lower_ascii (fst h)) (string_lower_ascii name)) hs with
  | [] => None
  | l => Some (join ", " (map snd l))
  end.

(** [a || b] for a string [a] that may be [null] or [undefined]. *)
Definition or_else (a : option string) (b : string) : string :=
  match a with
  | Some s => if String.eqb s "" then b else s
  | None => b
  end.

Definition getClientIp (hs : list (string * string)) : string :=
  or_else (headers_get hs "CF-Connecting-IP")
    (or_else (option_map (fun x => js_trim (hd "" (js_split ","%char x)))
                         (headers_get hs "X-Forwarded-For"))
       "Unknown IP").

(* ------------------------------------------------------------------ *)
(** ** The [movies] table and the item handlers of src/movieApi.ts *)

(** The columns of a [movies] row that the handlers below read; a TEXT
    column that may be NULL is an option. *)
Record MovieDbRow := mkMovieDbRow {
  mv_id : Z;
  mv_uniqueid_num : option string;
  mv_title : option string;
  mv_is_liked : Z;
  mv_strm_files : option string;
  mv_poster_file_relative_path : option string;
  mv_fanart_file_relative_path : option string
}.

(** The lookup the item handlers share: when [parseInt(itemIdOrNum, 10)]
    is a number, [SELECT ... FROM movies WHERE id = ?]; when it is [NaN],
    [... WHERE uniqueid_num = ?]; [.first()] is the first matching row. *)
Definition find_movie (db : list MovieDbRow) (itemIdOrNum : string) : option MovieDbRow :=
  match js_parseInt10 itemIdOrNum with
  | Some n => find (fun r => Z.eqb (mv_id r) n) db
  | None =>
      find (fun r => match mv_uniqueid_num r with
                     | Some u => String.eqb u itemIdOrNum
                     | None => false
                     end) db
  end.

(** [UPDATE movies SET is_liked = v WHERE id = ?]. *)
Definition set_is_liked (v movieId : Z) (db : list MovieDbRow) : list MovieDbRow :=
  map (fun r => if Z.eqb (mv_id r) movieId
                then {| mv_id := mv_id r; mv_uniqueid_num := mv_uniqueid_num r;
                        mv_title := mv_title r; mv_is_liked := v;
                        mv_strm_files := mv_strm_files r;
                        mv_poster_file_relative_path := mv_poster_file_relative_path r;
                        mv_fanart_file_relative_path := mv_fanart_file_relative_path r |}
                else r) db.

(** [POST] ([v = 1], "Movie liked") and [DELETE] ([v = 0], "Movie
    unliked") on [/items/:item_id_or_num/like]: a row that is missing or
    whose [id] is falsy gives 404; otherwise the row is updated.  D1 is
    taken not to fail, so the [catch] branch (500) is not reached. *)
Definition set_like_handler (v : Z) (message : string) (liked : bool)
    (db : list MovieDbRow) (itemIdOrNum : string) : HttpResponse * list MovieDbRow :=
  let movieId := match find_movie db itemIdOrNum with Some row => mv_id row | None => 0%Z end in
  if Z.eqb movieId 0 then (JsonResp 404 (JObj [("error", JStr "Movie not found")]), db)
  else (JsonResp 200 (JObj [("message", JStr message); ("is_liked", JBool liked)]),
        set_is_liked v movieId db).

Definition postLike := set_like_handler 1 "Movie liked" true.
Definition deleteLike := set_like_handler 0 "Movie unliked" false.

(** [!!data.is_liked] in [movieRowToDict]. *)
Definition is_liked_flag (r : MovieDbRow) : bool := negb (Z.eqb (mv_is_liked r) 0).

(* ------------------------------------------------------------------ *)
(** ** [serveFileFromR2] (src/r2Utils.ts) *)

(** An R2 object: its [httpMetadata.contentType], [size], [httpEtag] and
    body. *)
Record R2Object := mkR2Object {
  r2_contentType : option string;
  r2_size : Z;
  r2_httpEtag : string;
  r2_body : string
}.

(** A bucket maps keys to objects. *)
Definition R2Bucket := list (string * R2Object).

Definition bucket_get (bucket : R2Bucket) (key : string) : option R2Object :=
  option_map snd (find (fun kv => String.eqb (fst kv) key) bucket).

(** [String(n)] for an integer. *)
Definition z_to_string (z : Z) : string :=
  string_of_list_ascii
    (if (z <? 0)%Z then "-"%char :: decimal (- z) else decimal z).

(** A response of the file-serving handlers: a text response, a JSON
    response, or status 200 with headers and the object's body. *)
Inductive FileResponse :=
| FText (status : Z) (body : string)
| FJson (status : Z) (body : json)
| FObject (headers : list (string * string)) (body : string).

Definition serveFileFromR2 (bucket : R2Bucket) (key cacheControl : string) : FileResponse :=
  match bucket_get bucket key with
  | None => FText 404 ("Object Not Found in R2: " ++ key)
  | Some object =>
      FObject [("Content-Type", or_else (r2_contentType object) "application/octet-stream");
               ("Content-Length", z_to_string (r2_size object));
               ("ETag", r2_httpEtag object);
               ("Cache-Control", cacheControl)]
              (r2_body object)
  end.

(** The default [cacheControl] argument. *)
Definition r2_default_cache : string := "public, max-age=86400".

(** [GET /images/poster/:movie_id_or_num] and [GET /images/fanart/...]
    of src/movieApi.ts; [column] reads [poster_file_relative_path] or
    [fanart_file_relative_path], [notFound] is "Poster not found" or
    "Fanart not found", [basePrefix] is [MOVIE_ASSETS_R2_BASE_PREFIX]. *)
Definition serveImageColumn (column : MovieDbRow -> option string) (notFound : string)
    (basePrefix : string) (bucket : R2Bucket) (db : list MovieDbRow)
    (movieIdOrNum : string) : FileResponse :=
  match find_movie db movieIdOrNum with
  | Some dbRow =>
      match column dbRow with
      | Some p =>
          if negb (String.eqb p "")
          then serveFileFromR2 bucket (replace_double_slash (basePrefix ++ "/" ++ p)) r2_default_cache
          else FText 404 notFound
      | None => FText 404 notFound
      end
  | None => FText 404 notFound
  end.

Definition getFanartImage := serveImageColumn mv_fanart_file_relative_path "Fanart not found".

(* ------------------------------------------------------------------ *)
(** ** [GET /stream/:item_id_or_num] (src/movieApi.ts) *)

(** Truthiness of a JSON value. *)
Definition js_truthy (v : json) : bool :=
  match v with
  | JNull => false
  | JBool b => b
  | JNum _ ds _ => existsb (fun c => negb (is_zero_char c)) ds
  | JStr s => negb (String.eqb s "")
  | JArr _ | JObj _ => true
  end.

(** [String(v)], as a template literal converts a value: an array is
    joined with [","] ([null] items give the empty string), an object
    gives ["[object Object]"]. *)
Fixpoint js_to_string (v : json) : string :=
  match v with
  | JNull => "null"
  | JBool true => "true"
  | JBool false => "false"
  | JNum neg ds e => string_of_list_ascii (format_number neg ds e)
  | JStr s => s
  | JArr vs => join "," (map (fun x => match x with JNull => "" | _ => js_to_string x end) vs)
  | JObj _ => "[object Object]"
  end.

(** [streamPathOrKey] for the first entry of [strm_files]: the entry
    itself when it is a string, its [url] when it is an object whose
    [url] is truthy, [undefined] ([None]) otherwise. *)
Definition stream_path_of_entry (firstStreamEntry : json) : option json :=
  match firstStreamEntry with
  | JStr s => Some (JStr s)
  | JObj ps =>
      match get_prop "url" ps with
      | Some u => if js_truthy u then Some u else None
      | None => None
      end
  | _ => None
  end.

(** The handler for the route parameter [itemIdOrNum]; [bucketBound]
    says whether [MOVIES_BUCKET] is bound. *)
Definition getStream (basePrefix : string) (bucketBound : bool) (bucket : R2Bucket)
    (db : list MovieDbRow) (itemIdOrNum : string) : FileResponse :=
  match find_movie db itemIdOrNum with
  | None => FJson 404 (JObj [("error", JStr "Movie not found for streaming")])
  | Some movieRaw =>
      match mv_strm_files movieRaw with
      | None => FJson 404 (JObj [("error", JStr "Stream files metadata not found for this movie")])
      | Some strm =>
          if String.eqb strm "" then
            FJson 404 (JObj [("error", JStr "Stream files metadata not found for this movie")])
          else
            match parseJsonField (Some (JStr strm)) with
            | [] => FJson 404 (JObj [("error", JStr "No stream links available")])
            | firstStreamEntry :: _ =>
                match stream_path_of_entry firstStreamEntry with
                | Some streamPathOrKey =>
                    if js_truthy streamPathOrKey then
                      let fullR2Key :=
                        replace_double_slash (basePrefix ++ "/" ++ js_to_string streamPathOrKey) in
                      if bucketBound
                      then serveFileFromR2 bucket fullR2Key "public, max-age=86400"
                      else FText 500 "Stream service misconfiguration"
                    else FJson 404 (JObj [("error", JStr "Valid R2 key/path for video file not found in strm_files")])
                | None => FJson 404 (JObj [("error", JStr "Valid R2 key/path for video file not found in strm_files")])
                end
            end
      end
  end.

(* ------------------------------------------------------------------ *)
(** ** [Array.prototype.sort] and plain objects used as maps *)

(** A stable sort under a comparator returning a number: an element is
    placed after every element [y] with [cmp y x <= 0].  Every correct
    sort gives this order when the comparator is consistent. *)
Fixpoint insert_by {A} (cmp : A -> A -> Z) (x : A) (l : list A) : list A :=
  match l with
  | [] => [x]
  | y :: r => if (cmp y x <=? 0)%Z then y :: insert_by cmp x r else x :: y :: r
  end.

Definition sort_by {A} (cmp : A -> A -> Z) (l : list A) : list A :=
  fold_left (fun acc x => insert_by cmp x acc) l [].

(** The default comparator of [sort()]: UTF-16 code-unit order. *)
Definition code_unit_compare (a b : string) : Z :=
  match String.compare a b with Lt => -1 | Eq => 0 | Gt => 1 end.

(** Properties every plain object [{}] inherits from [Object.prototype]:
    [map[name]] is truthy for these names before any own key is set. *)
Definition object_prototype_keys : list string :=
  ["constructor"; "__proto__"; "toString"; "toLocaleString"; "valueOf";
   "hasOwnProperty"; "isPrototypeOf"; "propertyIsEnumerable";
   "__defineGetter__"; "__defineSetter__"; "__lookupGetter__"; "__lookupSetter__"].

Definition inherited_key (k : string) : bool := existsb (String.eqb k) object_prototype_keys.

(** An array index key ("0", or digits without a leading zero, below
    2^32 - 1) and its value. *)
Definition array_index_value (k : string) : option Z :=
  let l := list_ascii_of_string k in
  match l with
  | [] => None
  | c :: r =>
      if forallb is_digit l && (negb (is_zero_char c) || (match r with [] => true | _ => false end))
      then let v := digits_value l in if (v <? 4294967295)%Z then Some v else None
      else None
  end.

(** [Object.values(map)] for a map kept as its own keys in insertion
    order: array index keys first in ascending order, then the other keys
    in insertion order. *)
Definition object_values_order {A} (m : list (string * A)) : list (string * A) :=
  sort_by (fun a b => match array_index_value (fst a), array_index_value (fst b) with
                      | Some x, Some y => (x - y)%Z
                      | _, _ => 0%Z
                      end)
          (filter (fun kv => match array_index_value (fst kv) with Some _ => true | None => false end) m)
  ++ filter (fun kv => match array_index_value (fst kv) with Some _ => false | None => true end) m.

(* ------------------------------------------------------------------ *)
(** ** [GET /genres] (src/movieApi.ts) *)

(** [set.add(x)] on a [Set] kept in insertion order. *)
Definition set_add (x : string) (s : list string) : list string :=
  if existsb (String.eqb x) s then s else (s ++ [x])%list.

(** [parseJsonField(row.genres).forEach(gName => { if (gName?.trim())
    allGenreNames.add(gName.trim()); })]; [None] is the [TypeError] that
    [trim] raises on a value that is neither a string nor [null]. *)
Fixpoint add_genre_names (set : list string) (gs : list json) : option (list string) :=
  match gs with
  | [] => Some set
  | JStr s :: r =>
      let t := js_trim s in
      add_genre_names (if negb (String.eqb t "") then set_add t set else set) r
  | JNull :: r => add_genre_names set r
  | _ :: _ => None
  end.

Fixpoint collect_genre_names (set : list string) (rows : list string) : option (list string) :=
  match rows with
  | [] => Some set
  | row :: r =>
      match add_genre_names set (parseJsonField (Some (JStr row))) with
      | Some set' => collect_genre_names set' r
      | None => None
      end
  end.

(** The handler for the [genres] values the query returns (non-NULL,
    not [''], not ['[]']): the JSON array of [{Name, Id}], or [None] when
    it throws (answered by [app.onError]). *)
Definition getGenres (rows : list string) : option (list json) :=
  match collect_genre_names [] rows with
  | Some set =>
      Some (map (fun g => JObj [("Name", JStr g); ("Id", JStr g)])
                (sort_by code_unit_compare set))
  | None => None
  end.

(* ------------------------------------------------------------------ *)
(** ** [GET /libraries] (src/movieApi.ts) *)

Definition is_path_sep (c : ascii) : bool :=
  Ascii.eqb c "/"%char || Ascii.eqb c bslash.

(** [s.split(/[/\\]/)]. *)
Fixpoint split_on (sep : ascii -> bool) (l : list ascii) : list (list ascii) :=
  match l with
  | [] => [[]]
  | c :: r =>
      let rest := split_on sep r in
      if sep c then [] :: rest
      else match rest with
           | x :: xs => (c :: x) :: xs
           | [] => [[c]]
           end
  end.

(** [nameParts.pop() || fullPath]. *)
Definition library_name (fullPath : string) : string :=
  let nameParts := map string_of_list_ascii (split_on is_path_sep (list_ascii_of_string fullPath)) in
  or_else (Some (last nameParts "")) fullPath.

Record LibraryInfo := mkLibraryInfo { lib_Name : string; lib_Id : string }.

Section Libraries.
(** [String.prototype.localeCompare] depends on the locale data of the
    runtime; it is a parameter. *)
Variable localeCompare : string -> string -> Z.

Definition getLibraries (rows : list string) : list LibraryInfo :=
  sort_by (fun a b => localeCompare (lib_Name a) (lib_Name b))
          (map (fun fullPath => mkLibraryInfo (library_name fullPath) fullPath) rows).

End Libraries.

(* ------------------------------------------------------------------ *)
(** ** [GET /studios] (src/movieApi.ts) *)

Record StudioInfo := mkStudioInfo { st_Name : string; st_Id : string; st_MovieCount : Z }.

(** [if (!studiosMap[name]) studiosMap[name] = {Name, Id, MovieCount: 0};
    studiosMap[name].MovieCount++]: the own entries in insertion order.
    A name inherited from [Object.prototype] is truthy already, so no own
    entry is made and the increment goes to the inherited value. *)
Fixpoint bump_count (name : string) (m : list (string * StudioInfo)) : list (string * StudioInfo) :=
  match m with
  | [] => [(name, mkStudioInfo name name 1)]
  | (k, e) :: r =>
      if String.eqb k name
      then (k, mkStudioInfo (st_Name e) (st_Id e) (st_MovieCount e + 1)) :: r
      else (k, e) :: bump_count name r
  end.

Definition studio_step (m : list (string * StudioInfo)) (row : string) : list (string * StudioInfo) :=
  let name := js_trim row in
  if negb (String.eqb name "") then
    if inherited_key name then m else bump_count name m
  else m.

Section Studios.
Variable localeCompare : string -> string -> Z.

(** [(b.MovieCount || 0) - (a.MovieCount || 0) || a.Name.localeCompare(b.Name)]. *)
Definition studio_compare (a b : StudioInfo) : Z :=
  let d := (st_MovieCount b - st_MovieCount a)%Z in
  if Z.eqb d 0 then localeCompare (st_Name a) (st_Name b) else d.

(** The handler for the [studio] values the query returns. *)
Definition getStudios (rows : list string) : list StudioInfo :=
  sort_by studio_compare (map snd (object_values_order (fold_left studio_step rows []))).

End Studios.

(* ------------------------------------------------------------------ *)
(** ** [POST /login] (src/index.ts) and [generateJwt] (src/auth.ts) *)

(** What [POST /login] answers: a 303 redirect to ["/"] that sets the
    [auth_session] cookie to [token] (path ["/"], HttpOnly, SameSite Lax,
    max-age 7 days), a 303 redirect back to ["/login"] with an [error]
    query parameter and no cookie, or the error response of
    [app.onError] when [generateJwt] throws. *)
Inductive LoginOutcome :=
| LoginRedirectHome (token : string)
| LoginRedirectError
| LoginServerError.

Section Login.
(** [sign] and [verify] of hono/jwt under a secret; [verify] gives
    [None] where it throws. *)
Variable sign : JwtPayload -> string -> string.
Variable verify : string -> string -> option JwtPayload.

(** [generateJwt(c)]: [None] where it throws because
    [SESSION_SECRET_KEY] is missing or empty. *)
Definition generateJwt (secret : option string) : option string :=
  match secret with
  | Some k => if String.eqb k "" then None else Some (sign (mkJwtPayload true) k)
  | None => None
  end.

(** [verifyJwt(c, token)] under [SESSION_SECRET_KEY]. *)
Definition verifyJwt (secret : option string) (token : string) : option JwtPayload :=
  match secret with Some k => verify token k | None => None end.

(** The handler, for [formData.get('login_code')] ([None]: [null], or a
    file rather than a string) and the bindings [LOGIN_CODE] ([None]:
    [undefined]) and [SESSION_SECRET_KEY]. *)
Definition postLogin (LOGIN_CODE secret loginCode : option string) : LoginOutcome :=
  let same := match loginCode, LOGIN_CODE with
              | Some a, Some b => String.eqb a b
              | _, _ => false
              end in
  if same then
    match generateJwt secret with
    | Some token => LoginRedirectHome token
    | None => LoginServerError
    end
  else LoginRedirectError.

End Login.

(* ------------------------------------------------------------------ *)
(** ** Substrings, for statements about keys and paths *)

Fixpoint list_prefix (p l : list ascii) : bool :=
  match p, l with
  | [], _ => true
  | c :: p', d :: l' => Ascii.eqb c d && list_prefix p' l'
  | _ :: _, [] => false
  end.

(** [l] contains [pat] as a contiguous piece. *)
Fixpoint contains_sub (pat l : list ascii) : bool :=
  list_prefix pat l || match l with [] => false | _ :: r => contains_sub pat r end.

(* ------------------------------------------------------------------ *)
(** ** Auxiliary notions for the statements below *)

Definition starts_slash (l : list ascii) : bool :=
  match l with c :: _ => Ascii.eqb c "/" | [] => false end.

Definition hdr_named (name : string) (h : string * string) : bool :=
  String.eqb (string_lower_ascii (fst h)) name.

Definition with_is_liked (v : Z) (r : MovieDbRow) : MovieDbRow :=
  {| mv_id := mv_id r; mv_uniqueid_num := mv_uniqueid_num r;
     mv_title := mv_title r; mv_is_liked := v;
     mv_strm_files := mv_strm_files r;
     mv_poster_file_relative_path := mv_poster_file_relative_path r;
     mv_fanart_file_relative_path := mv_fanart_file_relative_path r |}.

Definition genre_bad (v : json) : Prop :=
  match v with JStr _ | JNull => False | _ => True end.

Definition studio_count (rows : list string) (k : string) : nat :=
  length (filter (fun r => String.eqb (js_trim r) k) rows).

Definition studio_map_inv (m : list (string * StudioInfo)) (pre : list string) : Prop :=
  NoDup (map fst m)
  /\ (forall k e, In (k, e) m ->
        st_Name e = k /\ st_Id e = k /\ k <> "" /\ inherited_key k = false
        /\ st_MovieCount e = Z.of_nat (studio_count pre k))
  /\ (forall k, k <> "" -> inherited_key k = false -> (studio_count pre k > 0)%nat ->
        In k (map fst m)).

(* ------------------------------------------------------------------ *)
(** ** Example data: two movie rows, one R2 object, and a toy JWT
    library ([verify] accepts exactly what [sign] produced for a
    logged-in payload) *)

Definition example_row7 : MovieDbRow :=
  mkMovieDbRow 7 (Some "tt123") (Some "Alpha") 0
    (Some (JSON_stringify (JArr [JStr "/video/alpha.mp4"; JStr "/video/alpha-2.mp4"])))
    (Some "/posters/alpha.jpg") None.

Definition example_row8 : MovieDbRow :=
  mkMovieDbRow 8 (Some "7") (Some "Beta") 1 None None (Some "").

Definition example_db : list MovieDbRow := [example_row7; example_row8].

Definition example_poster : R2Object := mkR2Object (Some "image/jpeg") 1024 "etag-1" "jpeg-bytes".

Definition example_bucket : R2Bucket := [("movies/posters/alpha.jpg", example_poster)].

Definition example_sign (p : JwtPayload) (k : string) : string :=
  k ++ (if loggedIn p then ".1" else ".0").

Definition example_verify (t k : string) : option JwtPayload :=
  if String.eqb t (k ++ ".1") then Some (mkJwtPayload true) else None.

(* ================================================================== *)
(** * Proofs *)

(** ** Strings *)

Lemma count_char_app (c : ascii) (s1 s2 : string) :
  count_char c (s1 ++ s2) = (count_char c s1 + count_char c s2)%nat.
Proof.
  induction s1 as [|c' r IH]; simpl; [reflexivity|].
  rewrite IH; lia.
Qed.

Lemma sum_q_app (l1 l2 : list string) :
  sum_q (l1 ++ l2)%list = (sum_q l1 + sum_q l2)%nat.
Proof.
  induction l1 as [|x r IH]; simpl; [reflexivity|].
  rewrite IH; lia.
Qed.

Lemma count_join (sep : string) (l : list string) :
  count_char "?"%char sep = O ->
  count_char "?"%char (join sep l) = sum_q l.
Proof.
  intros Hsep; unfold join.
  induction l as [|x r IH]; [reflexivity|].
  destruct r as [|y r'].
  - simpl; lia.
  - change (String.concat sep (x :: y :: r')) with (x ++ sep ++ String.concat sep (y :: r')).
    rewrite !count_char_app, Hsep, IH; simpl; lia.
Qed.

Lemma sum_q_repeat (s : string) (k : nat) :
  sum_q (repeat s k) = (k * count_char "?"%char s)%nat.
Proof. induction k as [|k IH]; simpl; [reflexivity|]; rewrite IH; lia. Qed.

Lemma somes_cons_app {A} (o : option A) (l : list (option A)) :
  somes (o :: l) = (somes [o] ++ somes l)%list.
Proof. destruct o; reflexivity. Qed.

(** ** The genre tokens loop *)

Lemma genre_fold (toks : list string) (gc : list string) (ps : list sql_value) :
  exists extra,
    fold_left genre_token_step toks (gc, ps)
    = ((gc ++ repeat "genres LIKE ?"
              (length (filter (fun t => negb (String.eqb (js_trim t) "")) toks)))%list,
       (ps ++ extra)%list)
    /\ length extra = length (filter (fun t => negb (String.eqb (js_trim t) "")) toks).
Proof.
  revert gc ps; induction toks as [|t r IH]; intros gc ps; simpl.
  - exists []; rewrite !app_nil_r; split; reflexivity.
  - destruct (negb (String.eqb (js_trim t) "")) eqn:E; simpl.
    + assert (Hs : genre_token_step (gc, ps) t
                   = ((gc ++ ["genres LIKE ?"])%list,
                      (ps ++ [SqlText ("%" ++ dq ++ js_trim t ++ dq ++ "%")])%list))
        by (unfold genre_token_step; rewrite E; reflexivity).
      rewrite Hs.
      destruct (IH (gc ++ ["genres LIKE ?"])%list
                   (ps ++ [SqlText ("%" ++ dq ++ js_trim t ++ dq ++ "%")])%list)
        as [extra [Hf Hl]].
      exists (SqlText ("%" ++ dq ++ js_trim t ++ dq ++ "%") :: extra).
      rewrite Hf, <- !app_assoc; simpl; split; [reflexivity | now rewrite Hl].
    + assert (Hs : genre_token_step (gc, ps) t = (gc, ps))
        by (unfold genre_token_step; rewrite E; reflexivity).
      rewrite Hs; apply IH.
Qed.

(** ** The builder, key by key *)

Ltac step_conds :=
  match goal with
  | |- conditions (?f ?a ?st) = _ => unfold f, key_clause
  end;
  match goal with
  | |- context [match ?o with Some _ => _ | None => _ end] =>
      let v := fresh "v" in
      destruct o as [v|]; cbn [truthy];
      [ destruct (negb (String.eqb v "")); cbn; rewrite ?app_nil_r; reflexivity
      | cbn; rewrite ?app_nil_r; reflexivity ]
  end.

Lemma conds_SearchTerm a st :
  conditions (step_SearchTerm a st) = (conditions st ++ somes [key_clause (SearchTerm a)
    "(title LIKE ? OR plot LIKE ? OR director LIKE ? OR studio LIKE ? OR uniqueid_num LIKE ? OR actors LIKE ?)"])%list.
Proof. step_conds. Qed.

Lemma conds_fuzzy a st :
  conditions (step_fuzzy a st)
  = (conditions st ++ somes [key_clause (uniqueid_num_fuzzy a) "uniqueid_num LIKE ?"])%list.
Proof. step_conds. Qed.

Lemma conds_prefix a st :
  conditions (step_prefix a st)
  = (conditions st ++ somes [key_clause (uniqueid_num_prefix a) "uniqueid_num LIKE ?"])%list.
Proof. step_conds. Qed.

Lemma conds_ParentId a st :
  conditions (step_ParentId a st)
  = (conditions st ++ somes [key_clause (ParentId a) "root_folder = ?"])%list.
Proof. step_conds. Qed.

Lemma conds_personIds a st :
  conditions (step_personIds a st)
  = (conditions st ++ somes [key_clause (personIds a)
       "(actors LIKE ? OR director = ? OR director LIKE ?)"])%list.
Proof. step_conds. Qed.

Lemma conds_studioIds a st :
  conditions (step_studioIds a st)
  = (conditions st ++ somes [key_clause (studioIds a) "studio = ?"])%list.
Proof. step_conds. Qed.

Lemma conds_seriesName a st :
  conditions (step_seriesName a st)
  = (conditions st ++ somes [key_clause (seriesName a) "set_name = ?"])%list.
Proof. step_conds. Qed.

Lemma conds_IncludeItemTypes a st :
  conditions (step_IncludeItemTypes a st)
  = (conditions st ++ somes [spec_item_types_clause a])%list.
Proof.
  unfold step_IncludeItemTypes, spec_item_types_clause.
  destruct (IncludeItemTypes a) as [v|]; cbn; [|now rewrite app_nil_r].
  destruct (String.eqb v "Movie"); [reflexivity|].
  destruct (String.eqb v "Series"); [reflexivity|].
  now rewrite app_nil_r.
Qed.

Lemma conds_Genres a st :
  conditions (step_Genres a st) = (conditions st ++ somes [spec_genre_clause a])%list.
Proof.
  unfold step_Genres, spec_genre_clause.
  destruct (Genres a) as [g|]; cbn [truthy]; [|now rewrite app_nil_r].
  destruct (negb (String.eqb g "")); [|now rewrite app_nil_r].
  destruct (genre_fold (js_split "," g) [] (sqlParams st)) as [extra [Hf _]].
  rewrite Hf; unfold genre_count.
  destruct (length (filter _ (js_split "," g))) as [|k]; cbn;
    [now rewrite app_nil_r | reflexivity].
Qed.

(** The conditions the builder accumulates are the spec's sub-clauses. *)
Lemma build_conditions (a : MovieArgs) :
  conditions
    (step_seriesName a (step_studioIds a (step_personIds a
      (step_IncludeItemTypes a (step_ParentId a (step_Genres a
        (step_prefix a (step_fuzzy a (step_SearchTerm a
          (mkWhereState [] [])))))))))) = spec_sub_clauses a.
Proof.
  rewrite conds_seriesName, conds_studioIds, conds_personIds,
    conds_IncludeItemTypes, conds_ParentId, conds_Genres, conds_prefix,
    conds_fuzzy, conds_SearchTerm.
  unfold spec_sub_clauses.
  rewrite !(somes_cons_app _ (_ :: _)).
  cbn [conditions]; rewrite !app_nil_l, <- !app_assoc.
  now destruct (key_clause (seriesName a) "set_name = ?").
Qed.

Lemma build_clause_spec (a : MovieArgs) :
  clause (buildMovieWhereClauseAndParams a) = spec_clause a.
Proof.
  unfold buildMovieWhereClauseAndParams, spec_clause; cbn [clause].
  now rewrite build_conditions.
Qed.

(** ** Placeholders and bound values stay in step *)

Ltac bal_step :=
  intros ? ? Hb;
  match goal with
  | |- balanced (?f ?a ?st) => unfold f
  end;
  repeat match goal with
  | |- context [match ?o with Some _ => _ | None => _ end] =>
      let v := fresh "v" in destruct o as [v|]
  | |- context [if ?b then _ else _] => destruct b
  end;
  try exact Hb;
  unfold balanced, push_cond, push_param in *; cbn [conditions sqlParams];
  rewrite ?sum_q_app, ?length_app; cbn; lia.

Lemma bal_SearchTerm : forall a st, balanced st -> balanced (step_SearchTerm a st).
Proof. bal_step. Qed.
Lemma bal_fuzzy : forall a st, balanced st -> balanced (step_fuzzy a st).
Proof. bal_step. Qed.
Lemma bal_prefix : forall a st, balanced st -> balanced (step_prefix a st).
Proof. bal_step. Qed.
Lemma bal_ParentId : forall a st, balanced st -> balanced (step_ParentId a st).
Proof. bal_step. Qed.
Lemma bal_IncludeItemTypes : forall a st, balanced st -> balanced (step_IncludeItemTypes a st).
Proof. bal_step. Qed.
Lemma bal_personIds : forall a st, balanced st -> balanced (step_personIds a st).
Proof. bal_step. Qed.
Lemma bal_studioIds : forall a st, balanced st -> balanced (step_studioIds a st).
Proof. bal_step. Qed.
Lemma bal_seriesName : forall a st, balanced st -> balanced (step_seriesName a st).
Proof. bal_step. Qed.

Lemma bal_Genres : forall a st, balanced st -> balanced (step_Genres a st).
Proof.
  intros a st Hb; unfold step_Genres.
  destruct (Genres a) as [g|]; [|exact Hb].
  destruct (truthy (Some g)); [|exact Hb].
  destruct (genre_fold (js_split "," g) [] (sqlParams st)) as [extra [Hf Hl]].
  rewrite Hf; cbn [app].
  revert Hl; generalize (length (filter (fun t => negb (String.eqb (js_trim t) ""))
                                  (js_split "," g))) as k; intros k Hl.
  destruct k as [|k].
  - destruct extra; [|discriminate].
    unfold balanced in *; cbn [conditions sqlParams repeat]; now rewrite app_nil_r.
  - change (repeat "genres LIKE ?" (S k)) with ("genres LIKE ?" :: repeat "genres LIKE ?" k).
    cbv iota beta.
    change ("genres LIKE ?" :: repeat "genres LIKE ?" k) with (repeat "genres LIKE ?" (S k)).
    unfold balanced, push_cond in *; cbn [conditions sqlParams].
    rewrite sum_q_app, length_app, Hl, <- Hb.
    change (sum_q [?c]) with (count_char "?"%char c + 0)%nat.
    rewrite !count_char_app, count_join, sum_q_repeat by reflexivity.
    simpl; lia.
Qed.

Lemma build_balanced (a : MovieArgs) :
  balanced
    (step_seriesName a (step_studioIds a (step_personIds a
      (step_IncludeItemTypes a (step_ParentId a (step_Genres a
        (step_prefix a (step_fuzzy a (step_SearchTerm a
          (mkWhereState [] [])))))))))).
Proof.
  apply bal_seriesName, bal_studioIds, bal_personIds, bal_IncludeItemTypes,
    bal_ParentId, bal_Genres, bal_prefix, bal_fuzzy, bal_SearchTerm.
  reflexivity.
Qed.

Lemma build_placeholders (a : MovieArgs) :
  count_char "?"%char (clause (buildMovieWhereClauseAndParams a))
  = length (params (buildMovieWhereClauseAndParams a)).
Proof.
  pose proof (build_balanced a) as Hb; unfold balanced in Hb.
  unfold buildMovieWhereClauseAndParams; cbn [clause params].
  destruct (conditions _) as [|c cs] eqn:E.
  - cbn in *; lia.
  - rewrite <- E, count_join by reflexivity; rewrite E; exact Hb.
Qed.

(** ** The clause depends on the values only through their shape *)

Lemma key_clause_truthy (o : option string) (c : string) :
  key_clause o c = if truthy o then Some c else None.
Proof. reflexivity. Qed.

Lemma genre_clause_shape (a : MovieArgs) :
  spec_genre_clause a =
  match sh_genres (arg_shape a) with
  | O => None
  | k => Some ("(" ++ join " OR " (repeat "genres LIKE ?" k) ++ ")")
  end.
Proof.
  unfold spec_genre_clause, arg_shape; cbn [sh_genres].
  destruct (Genres a) as [g|]; [|reflexivity].
  destruct (truthy (Some g)); reflexivity.
Qed.

Lemma item_types_clause_shape (a : MovieArgs) :
  spec_item_types_clause a =
  match sh_kind (arg_shape a) with
  | KindMovie => Some "(set_name IS NULL OR set_name = '')"
  | KindSeries => Some "(set_name IS NOT NULL AND set_name != '')"
  | KindOther => None
  end.
Proof.
  unfold spec_item_types_clause, arg_shape, item_kind; cbn [sh_kind].
  destruct (IncludeItemTypes a) as [v|]; [|reflexivity].
  destruct (String.eqb v "Movie"); [reflexivity|].
  destruct (String.eqb v "Series"); reflexivity.
Qed.

Lemma spec_clause_shape (a1 a2 : MovieArgs) :
  arg_shape a1 = arg_shape a2 -> spec_clause a1 = spec_clause a2.
Proof.
  intros Hs.
  unfold spec_clause, spec_sub_clauses.
  rewrite !genre_clause_shape, !item_types_clause_shape, !key_clause_truthy.
  rewrite <- Hs.
  unfold arg_shape in Hs; cbn [sh_search sh_fuzzy sh_prefix sh_parent sh_person
    sh_studio sh_series] in *.
  injection Hs; intros Hse Hst Hpe _ Hpa _ Hpr Hfu Hsr.
  cbn [sh_search sh_fuzzy sh_prefix sh_parent sh_person sh_studio sh_series].
  now rewrite Hse, Hst, Hpe, Hpa, Hpr, Hfu, Hsr.
Qed.

(** ** Sort column and order never contain a placeholder *)

Lemma db_sort_by_no_q (sortBy : string) : count_char "?"%char (db_sort_by sortBy) = O.
Proof.
  unfold db_sort_by.
  destruct (existsb _ validSortCols) eqn:E; [|reflexivity].
  apply existsb_exists in E; destruct E as [c [Hin Heq]].
  apply String.eqb_eq in Heq; rewrite Heq.
  unfold validSortCols in Hin; simpl in Hin.
  repeat (destruct Hin as [<-|Hin]; [reflexivity|]); contradiction.
Qed.

Lemma db_sort_order_no_q (sortOrder : string) :
  count_char "?"%char (db_sort_order sortOrder) = O.
Proof. unfold db_sort_order; destruct (String.eqb _ _); reflexivity. Qed.

(** ** Integer ceiling *)

Lemma js_ceil_div_spec (n p : Z) :
  (0 < p)%Z -> (p * (js_ceil_div n p - 1) < n <= p * js_ceil_div n p)%Z.
Proof.
  intros Hp; unfold js_ceil_div.
  pose proof (Z.div_mod (- n) p ltac:(lia)) as Hd.
  pose proof (Z.mod_pos_bound (- n) p Hp) as Hm.
  nia.
Qed.

Lemma js_ceil_div_zero (n p : Z) :
  (0 < p)%Z -> (0 <= n)%Z -> (js_ceil_div n p = 0 <-> n = 0)%Z.
Proof.
  intros Hp Hn; pose proof (js_ceil_div_spec n p Hp) as H.
  split; intros E.
  - rewrite E in H; nia.
  - subst; reflexivity.
Qed.

(* ================================================================== *)
(** * The claims about the WHERE-clause builder and the listing *)

(** C2: with none of the filter keys the builder returns the always-true
    clause ["1=1"] and no parameters; in general the clause is the AND of
    one sub-clause per filter key with a value, and the Genres sub-clause
    is the OR of one test per non-empty comma-separated genre. *)
Theorem buildMovieWhereClause_and_or :
  buildMovieWhereClauseAndParams no_filters = mkWhereResult "1=1" [] /\
  (forall a : MovieArgs,
     clause (buildMovieWhereClauseAndParams a)
     = match spec_sub_clauses a with
       | [] => "1=1"
       | subs => join " AND " subs
       end).
Proof.
  split; [reflexivity|].
  intros a; exact (build_clause_spec a).
Qed.

(** C9: the clause has exactly one ['?'] placeholder per bound parameter,
    and so do the count query and the data query of [GET /items] (the
    latter with [limit] and [startIndex] appended). *)
Theorem where_placeholders_match_params :
  forall (a : MovieArgs) (sortBy sortOrder : string) (limit startIndex : Z),
    let r := buildMovieWhereClauseAndParams a in
    let '((cq, cps), (dq', dps)) := items_queries a sortBy sortOrder limit startIndex in
    count_char "?"%char (clause r) = length (params r) /\
    count_char "?"%char cq = length cps /\
    count_char "?"%char dq' = length dps.
Proof.
  intros a sortBy sortOrder limit startIndex; cbv zeta.
  unfold items_queries, items_count_query, items_data_query.
  pose proof (build_placeholders a) as H.
  split; [exact H|split].
  - rewrite count_char_app, H; reflexivity.
  - rewrite !count_char_app, H, db_sort_by_no_q, db_sort_order_no_q, length_app.
    cbn; lia.
Qed.

(** C6 (as amended): the clause string is a function of the shape of the
    arguments alone (which filter keys have a non-empty value, whether
    IncludeItemTypes is "Movie", "Series" or neither, and how many
    non-empty trimmed genre tokens there are); no filter value is ever
    copied into it. *)
Theorem where_clause_value_independent :
  forall a1 a2 : MovieArgs,
    arg_shape a1 = arg_shape a2 ->
    clause (buildMovieWhereClauseAndParams a1) = clause (buildMovieWhereClauseAndParams a2).
Proof.
  intros a1 a2 Hs.
  rewrite !build_clause_spec.
  exact (spec_clause_shape a1 a2 Hs).
Qed.

Lemma where_clause_value_independent_witness :
  let a1 := mkMovieArgs (Some "x") None None (Some "Action") None (Some "Movie")
              None None None in
  let a2 := mkMovieArgs (Some "'; DROP TABLE movies; --") None None (Some " Drama ,")
              None (Some "Movie") None None None in
  arg_shape a1 = arg_shape a2 /\
  clause (buildMovieWhereClauseAndParams a1) = clause (buildMovieWhereClauseAndParams a2).
Proof.
  cbv zeta; split; [vm_compute; reflexivity|].
  apply where_clause_value_independent; vm_compute; reflexivity.
Defined.

(** C6 as stated fails: two argument maps with the same present keys (and
    no genres) give different clauses when IncludeItemTypes is "Movie" in
    one and "Series" in the other. *)
Lemma where_clause_value_independent_cex :
  let a1 := mkMovieArgs None None None None None (Some "Movie") None None None in
  let a2 := mkMovieArgs None None None None None (Some "Series") None None None in
  present_keys a1 = present_keys a2 /\
  clause (buildMovieWhereClauseAndParams a1) <> clause (buildMovieWhereClauseAndParams a2).
Proof.
  cbv zeta; split; [reflexivity|].
  vm_compute; discriminate.
Qed.

(** C3 (as amended): for [Limit = P > 0] and [N >= 0] matching records,
    [TotalPages] is the ceiling of [N / P] whenever [N > 0]; for [N = 0]
    src/movieApi.ts reports 1 (its [|| 1] guard) while the router of
    unnamed/part_000 and unnamed/part_001 reports [0 = ceil(0 / P)]. *)
Theorem total_pages_ceiling :
  forall N P : Z, (0 < P)%Z -> (0 <= N)%Z ->
    ((0 < N)%Z -> (P * (total_pages N P - 1) < N <= P * total_pages N P)%Z) /\
    (N = 0%Z -> total_pages N P = 1%Z) /\
    (P * (total_pages_v2 N P - 1) < N <= P * total_pages_v2 N P)%Z.
Proof.
  intros N P HP HN.
  pose proof (js_ceil_div_spec N P HP) as Hc.
  pose proof (js_ceil_div_zero N P HP HN) as Hz.
  unfold total_pages, total_pages_v2; cbv zeta.
  destruct (Z.eqb (js_ceil_div N P) 0) eqn:E.
  - apply Z.eqb_eq in E; rewrite E in Hc.
    split; [intros; apply Hz in E; lia|].
    split; [reflexivity|]; lia.
  - apply Z.eqb_neq in E.
    split; [intros; exact Hc|].
    split; [intros ->; exfalso; apply E, Hz; reflexivity|exact Hc].
Qed.

Lemma total_pages_ceiling_witness :
  total_pages 25 10 = 3%Z /\ total_pages 0 10 = 1%Z /\ total_pages_v2 0 10 = 0%Z /\
  ((0 < 25)%Z -> (10 * (total_pages 25 10 - 1) < 25 <= 10 * total_pages 25 10)%Z).
Proof.
  split; [reflexivity|]; split; [reflexivity|]; split; [reflexivity|].
  exact (proj1 (total_pages_ceiling 25 10 ltac:(lia) ltac:(lia))).
Defined.

(** C3 as stated fails for src/movieApi.ts: with no matching record and
    [Limit = 10] the response has [TotalPages = 1], and 1 is not the
    ceiling of [0 / 10]. *)
Lemma total_pages_ceiling_cex :
  total_pages 0 10 = 1%Z /\
  ~ (10 * (total_pages 0 10 - 1) < 0 <= 10 * total_pages 0 10)%Z.
Proof. split; [reflexivity|]. cbv; intros [H _]; discriminate H. Qed.

(** ** Related items *)

Section RelatedProofs.

Variable Movie : Type.
Variable Id : Movie -> Z.

Lemma id_mem_cons (x y : Z) (s : list Z) :
  id_mem x (y :: s) = (Z.eqb x y || id_mem x s)%bool.
Proof. reflexivity. Qed.

Lemma id_mem_in (x : Z) (s : list Z) : In x s -> id_mem x s = true.
Proof.
  intros Hin; unfold id_mem; apply existsb_exists.
  exists x; split; [exact Hin | apply Z.eqb_refl].
Qed.

Lemma filter_fresh_mono (x : Z) (seen : list Z) (l : list Movie) :
  (length (filter (fun m => negb (id_mem (Id m) (x :: seen))) l)
   <= length (filter (fun m => negb (id_mem (Id m) seen)) l))%nat.
Proof.
  induction l as [|m r IH]; cbn [filter]; [lia|].
  rewrite id_mem_cons.
  destruct (Z.eqb (Id m) x), (id_mem (Id m) seen); cbn [negb orb length]; lia.
Qed.

Lemma genre_loop_props (n : Z) :
  forall (cands : list Movie) (seen : list Z) (acc : list Movie),
  exists S,
    genre_random_loop Movie Id n seen acc cands = (acc ++ S)%list /\
    (forall m, In m S -> id_mem (Id m) seen = false) /\
    NoDup (map Id S) /\
    (length S <= length (filter (fun m => negb (id_mem (Id m) seen)) cands))%nat /\
    ((Z.of_nat (length acc) <= n)%Z -> (Z.of_nat (length (acc ++ S)) <= n)%Z) /\
    ((n <= Z.of_nat (length acc))%Z -> S = []).
Proof.
  induction cands as [|m rest IH]; intros seen acc; simpl.
  - exists []; rewrite app_nil_r.
    split; [reflexivity|]; split; [intros ? []|]; split; [constructor|].
    split; [cbn; lia|]; split; [auto|reflexivity].
  - destruct (Z.leb_spec n (Z.of_nat (length acc))) as [Hle|Hlt].
    + exists []; rewrite app_nil_r.
      split; [reflexivity|]; split; [intros ? []|]; split; [constructor|].
      split; [cbn; lia|]; split; [auto|reflexivity].
    + destruct (negb (Z.eqb (Id m) 0) && negb (id_mem (Id m) seen))%bool eqn:Hc.
      * apply andb_true_iff in Hc; destruct Hc as [_ Hfresh].
        apply negb_true_iff in Hfresh.
        destruct (IH (Id m :: seen) (acc ++ [m])%list)
          as [S' [Heq [Hnot [Hnd [Hlen [Hcap _]]]]]].
        exists (m :: S'); rewrite Heq, <- app_assoc; simpl.
        split; [reflexivity|].
        split.
        { intros x [<-|Hx]; [exact Hfresh|].
          specialize (Hnot x Hx); rewrite id_mem_cons in Hnot.
          now apply orb_false_iff in Hnot. }
        split.
        { constructor; [|exact Hnd].
          intros Hin; apply in_map_iff in Hin; destruct Hin as [y [Hy Hyin]].
          specialize (Hnot y Hyin); rewrite id_mem_cons, Hy, Z.eqb_refl in Hnot.
          discriminate. }
        split.
        { rewrite Hfresh; simpl.
          pose proof (filter_fresh_mono (Id m) seen rest); lia. }
        split; [|lia].
        intros _; specialize (Hcap ltac:(rewrite length_app; simpl; lia)).
        now rewrite <- app_assoc in Hcap.
      * destruct (IH seen acc) as [S' [Heq [Hnot [Hnd [Hlen [Hcap Hz]]]]]].
        exists S'; repeat split; try assumption.
        destruct (id_mem (Id m) seen); simpl; lia.
Qed.

End RelatedProofs.

(* ================================================================== *)
(** * The claims about related items and the login gate *)

(** C5: the response is the ranked prefix followed by the genre-random
    suffix; no suffix entry shares an id with a prefix entry (nor with
    another suffix entry); the suffix has at most [NUM_RANDOM_GENRE_PICKS]
    entries (none when that value is not positive or [NaN]) and at most as
    many as the fetched candidates whose id is not in the prefix. *)
Theorem related_prefix_suffix_disjoint :
  forall (Movie : Type) (Id : Movie -> Z) (numPicks : option Z)
         (primaryRelatedList genreCandidatesList : list Movie),
    let suffix := genre_random_related Movie Id numPicks primaryRelatedList genreCandidatesList in
    precomputed_related_response Movie Id numPicks primaryRelatedList genreCandidatesList
      = (primaryRelatedList ++ suffix)%list /\
    (forall m1 m2, In m1 primaryRelatedList -> In m2 suffix -> Id m1 <> Id m2) /\
    NoDup (map Id suffix) /\
    (forall n, numPicks = Some n ->
       ((0 <= n)%Z -> (Z.of_nat (length suffix) <= n)%Z) /\ ((n <= 0)%Z -> suffix = [])) /\
    (numPicks = None -> suffix = []) /\
    (length suffix <= length (filter (fun m => negb (id_mem (Id m) (map Id primaryRelatedList)))
                                genreCandidatesList))%nat.
Proof.
  intros Movie Id numPicks primary cands suffix.
  split; [reflexivity|].
  assert (Hgen : forall n, numPicks = Some n -> (0 < n)%Z ->
            suffix = genre_random_loop Movie Id n (map Id primary) [] cands).
  { intros n -> Hn; unfold suffix, genre_random_related, js_positive.
    now rewrite (proj2 (Z.ltb_lt 0 n) Hn). }
  assert (Hempty : (forall n, numPicks = Some n -> (n <= 0)%Z -> suffix = []) /\
                   (numPicks = None -> suffix = [])).
  { split.
    - intros n -> Hn; unfold suffix, genre_random_related, js_positive.
      now destruct (Z.ltb_spec 0 n); [lia|].
    - intros ->; reflexivity. }
  destruct Hempty as [Hneg Hnone].
  destruct numPicks as [n|].
  2:{ rewrite (Hnone eq_refl); split; [intros ? ? ? []|].
      split; [constructor|]; split; [discriminate|]; split; [auto|cbn; lia]. }
  destruct (Z.ltb_spec 0 n) as [Hn|Hn].
  2:{ rewrite (Hneg n eq_refl Hn); split; [intros ? ? ? []|].
      split; [constructor|].
      split; [intros n' [=<-]; split; [cbn; lia|reflexivity]|].
      split; [discriminate|cbn; lia]. }
  rewrite (Hgen n eq_refl Hn).
  destruct (genre_loop_props Movie Id n cands (map Id primary) [])
    as [S [Heq [Hnot [Hnd [Hlen [Hcap _]]]]]].
  rewrite Heq; cbn [app].
  split.
  { intros m1 m2 H1 H2 Hid.
    specialize (Hnot m2 H2).
    rewrite (id_mem_in (Id m2) (map Id primary)) in Hnot; [discriminate|].
    rewrite <- Hid; now apply in_map. }
  split; [exact Hnd|].
  split; [|split; [discriminate|exact Hlen]].
  intros n' [=<-]; split; [|lia].
  intros _; apply Hcap; cbn; lia.
Qed.

(** C8: off the allow-list, a request whose session is rejected (no cookie,
    an empty one, a token failing verification or a payload without
    [loggedIn]) gets a 401 JSON error under [/api/] and [/api_movies/] and
    a redirect to [/login] elsewhere; a request whose token verifies to a
    logged-in payload is passed on to the routed handler. *)
Theorem requireLogin_gate :
  forall (verifyJwt : string -> option JwtPayload) (path : string),
    existsb (fun allowedPath => starts_with allowedPath path) allowedPaths = false ->
    (forall cookie, session_rejected verifyJwt cookie ->
       (is_api_path path = true ->
          exists msg deleted, requireLogin verifyJwt path cookie = Unauthorized401 msg deleted) /\
       (is_api_path path = false ->
          exists deleted, requireLogin verifyJwt path cookie = RedirectTo "/login" 307 deleted)) /\
    (forall token p, token <> "" -> verifyJwt token = Some p -> loggedIn p = true ->
       requireLogin verifyJwt path (Some token) = PassToNext).
Proof.
  intros verifyJwt path Hoff; unfold requireLogin; rewrite Hoff.
  split.
  - intros cookie Hrej.
    destruct cookie as [token|].
    + destruct Hrej as [->|Hv].
      * cbn; split; intros ->; eauto.
      * destruct (String.eqb token "");
          [split; intros ->; eauto|].
        destruct (verifyJwt token) as [p|].
        -- rewrite Hv; split; intros ->; eauto.
        -- split; intros ->; eauto.
    + split; intros ->; eauto.
  - intros token p Hne Hv Hl.
    apply String.eqb_neq in Hne; rewrite Hne, Hv, Hl; reflexivity.
Qed.

Lemma requireLogin_gate_witness :
  let verifyJwt := fun t => if String.eqb t "good-token" then Some (mkJwtPayload true) else None in
  (exists msg deleted,
      requireLogin verifyJwt "/api_movies/items" (Some "forged") = Unauthorized401 msg deleted) /\
  requireLogin verifyJwt "/api_movies/items" (Some "good-token") = PassToNext.
Proof.
  intros verifyJwt.
  destruct (requireLogin_gate verifyJwt "/api_movies/items" ltac:(reflexivity)) as [Hrej Hok].
  split.
  - apply (proj1 (Hrej (Some "forged") ltac:(right; reflexivity))); reflexivity.
  - apply (Hok "good-token" (mkJwtPayload true)); [discriminate|reflexivity|reflexivity].
Defined.

(** C10: the allow-list is matched by prefix: every path that merely
    starts with [/login], [/static/] or [/favicon.ico] is passed on, with
    whatever cookie, and without consulting the token verifier. *)
Theorem requireLogin_prefix_bypass :
  forall (verifyJwt : string -> option JwtPayload) (path : string) (cookie : option string),
    (starts_with "/login" path || starts_with "/static/" path
     || starts_with "/favicon.ico" path)%bool = true ->
    requireLogin verifyJwt path cookie = PassToNext.
Proof.
  intros verifyJwt path cookie H; unfold requireLogin.
  replace (existsb _ allowedPaths) with true; [reflexivity|].
  symmetry; unfold allowedPaths, LOGIN_PATH; cbn [existsb].
  destruct (starts_with "/login" path), (starts_with "/static/" path),
    (starts_with "/favicon.ico" path); cbn in *; congruence.
Qed.

Lemma requireLogin_prefix_bypass_witness :
  requireLogin (fun _ => None) "/loginXYZ" None = PassToNext /\
  requireLogin (fun _ => None) "/login/anything" (Some "garbage") = PassToNext.
Proof.
  split; apply requireLogin_prefix_bypass; reflexivity.
Defined.

(* ------------------------------------------------------------------ *)
(** ** Image redirects *)

(** A numeric id whose [uniqueid_num] is that same string is served from
    storage without a redirect. *)
Lemma serveMovieImage_same_id (base : string) (db : list MovieRow) (ty s : string)
    (n : Z) (r : MovieRow) :
  js_parseInt10 s = Some n -> select_by_id db n = Some r ->
  uniqueid_num r = Some s -> s <> "" ->
  serveMovieImage base db ty s = ImageFromR2 (image_r2_key base ty s).
Proof.
  intros Hp Hs Hu Hne. unfold serveMovieImage. rewrite Hp, Hs, Hu.
  rewrite String.eqb_refl. destruct (String.eqb_spec s "") as [E|_]; [contradiction|].
  reflexivity.
Qed.

(** A numeric id whose non-empty [uniqueid_num] differs is answered by one
    301 to the same endpoint addressed by that [uniqueid_num]. *)
Lemma serveMovieImage_other_id (base : string) (db : list MovieRow) (ty s u : string)
    (n : Z) (r : MovieRow) :
  js_parseInt10 s = Some n -> select_by_id db n = Some r ->
  uniqueid_num r = Some u -> u <> "" -> u <> s ->
  serveMovieImage base db ty s =
    ImageRedirect ("/api_movies/images/" ++ ty ++ "/" ++ u) 301.
Proof.
  intros Hp Hs Hu Hne Hd. unfold serveMovieImage. rewrite Hp, Hs, Hu.
  destruct (String.eqb_spec u "") as [E|_]; [contradiction|].
  destruct (String.eqb_spec u s) as [E|_]; [contradiction|].
  reflexivity.
Qed.

Lemma loop_db_forever (base : string) (fuel : nat) :
  (Forall redirect_301
     (follow_image_requests fuel base loop_db "/api_movies/images/fanart/1")
   /\ length (follow_image_requests fuel base loop_db "/api_movies/images/fanart/1") = fuel)
  /\
  (Forall redirect_301
     (follow_image_requests fuel base loop_db "/api_movies/images/fanart/2")
   /\ length (follow_image_requests fuel base loop_db "/api_movies/images/fanart/2") = fuel).
Proof.
  induction fuel as [|fuel [[F1 L1] [F2 L2]]].
  - repeat split; constructor.
  - change (follow_image_requests (S fuel) base loop_db "/api_movies/images/fanart/1")
      with (ImageRedirect "/api_movies/images/fanart/2" 301
            :: follow_image_requests fuel base loop_db "/api_movies/images/fanart/2").
    change (follow_image_requests (S fuel) base loop_db "/api_movies/images/fanart/2")
      with (ImageRedirect "/api_movies/images/fanart/1" 301
            :: follow_image_requests fuel base loop_db "/api_movies/images/fanart/1").
    repeat split; cbn [length]; try lia;
      (constructor; [eexists; reflexivity | assumption]).
Qed.

(** C1 (code_bug).  The redirect target is not guaranteed to be final.  The
    handler parses any identifier that starts with digits as a row id, so a
    [uniqueid_num] such as ["259LUXU-1234"] is parsed as id 259 and
    redirected again, and the bytes served belong to another movie.  Two
    rows whose [uniqueid_num] values name each other's ids redirect without
    end.  This contradicts the handler's doc comment (it avoids infinite
    redirect loops) and its comment that the effective id is now
    non-numeric.  Requests by an id equal to its [uniqueid_num] are served
    directly, and a differing [uniqueid_num] gives one 301
    ([serveMovieImage_same_id], [serveMovieImage_other_id]); the chain below
    is where the claim fails. *)
Theorem serveMovieImage_redirect_not_final :
  follow_image_requests 10 "movies" [mkMovieRow 7 (Some "259LUXU-1234"); mkMovieRow 259 (Some "ABP-123")]
    "/api_movies/images/poster/7" =
  [ImageRedirect "/api_movies/images/poster/259LUXU-1234" 301;
   ImageRedirect "/api_movies/images/poster/ABP-123" 301;
   ImageFromR2 "movies/movies/movies_poster/ABP/ABP-123_poster.avif"]
  /\
  (forall fuel : nat,
     Forall redirect_301
       (follow_image_requests fuel "movies" loop_db "/api_movies/images/fanart/1")
     /\ length (follow_image_requests fuel "movies" loop_db "/api_movies/images/fanart/1") = fuel).
Proof.
  split.
  - vm_compute. reflexivity.
  - intro fuel. apply (loop_db_forever "movies" fuel).
Qed.

(* ------------------------------------------------------------------ *)
(** ** JSON round trip *)

Lemma is_digit_nat (c : ascii) :
  is_digit c = true <-> (48 <= nat_of_ascii c <= 57)%nat.
Proof.
  unfold is_digit. rewrite andb_true_iff, !Nat.leb_le. tauto.
Qed.

Lemma digit_not_ws (c : ascii) :
  (Ascii.eqb c "-"%char || is_digit c) = true ->
  is_json_ws c = false /\ Ascii.eqb c "]"%char = false.
Proof.
  intro H. apply orb_true_iff in H.
  destruct H as [H | H].
  - apply Ascii.eqb_eq in H. subst c. split; reflexivity.
  - apply is_digit_nat in H. unfold is_json_ws. split.
    + destruct (Nat.eqb_spec (nat_of_ascii c) 32); [lia|].
      destruct (Nat.eqb_spec (nat_of_ascii c) 9); [lia|].
      destruct (Nat.eqb_spec (nat_of_ascii c) 10); [lia|].
      destruct (Nat.eqb_spec (nat_of_ascii c) 13); [lia|]. reflexivity.
    + destruct (Ascii.eqb_spec c "]"%char) as [E|E]; [|reflexivity].
      subst c. cbv in H. lia.
Qed.

(** The head of the tail that follows a value is not a digit. *)
Definition no_digit_head (l : list ascii) : bool :=
  match l with
  | c :: _ => negb (is_digit c)
  | [] => true
  end.

Lemma ends_value_no_digit (rest : list ascii) :
  ends_value rest = true -> no_digit_head rest = true.
Proof.
  destruct rest as [|c r]; [reflexivity|]. cbn [ends_value no_digit_head].
  intro H. repeat (apply orb_true_iff in H; destruct H as [H|H]);
    apply Ascii.eqb_eq in H; subst c; reflexivity.
Qed.

Lemma span_digits_app (ds rest : list ascii) :
  forallb is_digit ds = true -> no_digit_head rest = true ->
  span_digits (ds ++ rest) = (ds, rest).
Proof.
  intros Hd Hr. induction ds as [|c ds IH].
  - destruct rest as [|c r]; [reflexivity|].
    cbn in Hr |- *. destruct (is_digit c); [discriminate | reflexivity].
  - cbn in Hd |- *. apply andb_true_iff in Hd as [Hc Hd].
    rewrite Hc, (IH Hd). reflexivity.
Qed.

Lemma frac_part_end (rest : list ascii) :
  ends_value rest = true -> parse_frac_part rest = Some ([], rest).
Proof.
  destruct rest as [|c r]; [reflexivity|]. cbn [ends_value]. intro H.
  repeat (apply orb_true_iff in H; destruct H as [H|H]);
    apply Ascii.eqb_eq in H; subst c; reflexivity.
Qed.

Lemma exp_part_end (rest : list ascii) :
  ends_value rest = true -> parse_exp_part rest = Some (0%Z, rest).
Proof.
  destruct rest as [|c r]; [reflexivity|]. cbn [ends_value]. intro H.
  repeat (apply orb_true_iff in H; destruct H as [H|H]);
    apply Ascii.eqb_eq in H; subst c; reflexivity.
Qed.

Lemma digits_value_snoc (l : list ascii) (c : ascii) :
  digits_value (l ++ [c]) = (digits_value l * 10 + Z.of_nat (nat_of_ascii c - 48))%Z.
Proof. unfold digits_value. rewrite fold_left_app. reflexivity. Qed.

Lemma digit_char_spec (d : Z) :
  (0 <= d < 10)%Z ->
  is_digit (digit_char d) = true /\ Z.of_nat (nat_of_ascii (digit_char d) - 48) = d.
Proof.
  intro Hd. unfold digit_char.
  rewrite Ascii.nat_ascii_embedding by lia.
  split.
  - apply is_digit_nat. rewrite Ascii.nat_ascii_embedding by lia. lia.
  - lia.
Qed.

Lemma decimal_fuel_spec (f : nat) (z : Z) :
  (0 <= z)%Z -> (Z.to_nat z < f)%nat ->
  decimal_fuel f z <> [] /\ forallb is_digit (decimal_fuel f z) = true
  /\ digits_value (decimal_fuel f z) = z.
Proof.
  revert z. induction f as [|f IH]; intros z Hz Hf; [lia|].
  cbn [decimal_fuel]. destruct (Z.ltb_spec z 10) as [Hlt|Hge].
  - destruct (digit_char_spec z) as [D V]; [lia|].
    split; [discriminate|]. cbn [forallb]. rewrite D. split; [reflexivity|].
    unfold digits_value. cbn [fold_left]. rewrite V. lia.
  - assert (Hq : (0 <= z / 10)%Z) by (apply Z.div_pos; lia).
    assert (Hm : (0 <= z mod 10 < 10)%Z) by (apply Z.mod_pos_bound; lia).
    assert (Hqz : (10 * (z / 10) <= z)%Z) by (apply Z.mul_div_le; lia).
    destruct (IH (z / 10)%Z) as [N [D V]]; [lia | lia |].
    destruct (digit_char_spec (z mod 10)%Z) as [D' V']; [lia|].
    split; [destruct (decimal_fuel f (z / 10)%Z); discriminate|].
    split.
    + rewrite forallb_app, D. cbn [forallb]. rewrite D'. reflexivity.
    + rewrite digits_value_snoc, V, V'. pose proof (Z.div_mod z 10). lia.
Qed.

Lemma decimal_spec (z : Z) :
  (0 <= z)%Z ->
  decimal z <> [] /\ forallb is_digit (decimal z) = true /\ digits_value (decimal z) = z.
Proof. intro Hz. apply decimal_fuel_spec; lia. Qed.

Lemma drop_zeros_repeat (a : nat) (l : list ascii) :
  drop_zeros (repeat "0"%char a ++ l) = drop_zeros l.
Proof. induction a as [|a IH]; [reflexivity|]. exact IH. Qed.

Lemma drop_zeros_nonzero (c : ascii) (l : list ascii) :
  is_zero_char c = false -> drop_zeros (c :: l) = c :: l.
Proof. intro H. cbn. rewrite H. reflexivity. Qed.

Lemma rev_repeat_char (a : nat) (c : ascii) : rev (repeat c a) = repeat c a.
Proof.
  induction a as [|a IH]; [reflexivity|].
  cbn [repeat rev]. rewrite IH. change [c] with (repeat c 1).
  rewrite <- repeat_app. replace (a + 1)%nat with (S a) by lia. reflexivity.
Qed.

(** Leading and trailing zeros around canonical digits normalize away. *)
Lemma normalize_number_zeros (neg : bool) (a b : nat) (c : ascii) (ds' : list ascii)
    (lc : ascii) (rds : list ascii) (x : Z) :
  is_zero_char c = false -> rev (c :: ds') = lc :: rds -> is_zero_char lc = false ->
  normalize_number neg (repeat "0"%char a ++ (c :: ds') ++ repeat "0"%char b) x
  = JNum neg (c :: ds') (x + Z.of_nat b).
Proof.
  intros Hc Hr Hl. unfold normalize_number.
  rewrite drop_zeros_repeat. cbn [app]. rewrite drop_zeros_nonzero by exact Hc.
  change (c :: ds' ++ repeat "0"%char b)%list with ((c :: ds') ++ repeat "0"%char b)%list.
  rewrite rev_app_distr, rev_repeat_char, drop_zeros_repeat, Hr.
  rewrite drop_zeros_nonzero by exact Hl. rewrite <- Hr, rev_involutive.
  f_equal. rewrite length_app, length_rev, repeat_length. lia.
Qed.

Lemma forallb_repeat_zero (m : nat) : forallb is_digit (repeat "0"%char m) = true.
Proof. induction m as [|m IH]; [reflexivity | exact IH]. Qed.

Lemma normalize_canonical (neg : bool) (c : ascii) (ds' : list ascii) (lc : ascii)
    (rds : list ascii) (x : Z) :
  is_zero_char c = false -> rev (c :: ds') = lc :: rds -> is_zero_char lc = false ->
  normalize_number neg (c :: ds') x = JNum neg (c :: ds') x.
Proof.
  intros Hc Hr Hl. pose proof (normalize_number_zeros neg 0 0 c ds' lc rds x Hc Hr Hl) as H.
  cbn [repeat app] in H. rewrite app_nil_r, Z.add_0_r in H. exact H.
Qed.

Lemma digit_not_minus (c : ascii) : is_digit c = true -> Ascii.eqb c "-"%char = false.
Proof.
  intro H. destruct (Ascii.eqb_spec c "-"%char) as [E|E]; [subst c; discriminate | reflexivity].
Qed.

Section FormatBody.
Variables (ds : list ascii) (e : Z).
Let k := Z.of_nat (length ds).
Let n := (k + e)%Z.

Lemma format_body_int :
  ((k <=? n)%Z && (n <=? 21)%Z) = true ->
  format_body ds e = (ds ++ repeat "0"%char (Z.to_nat e))%list.
Proof. intro H. unfold format_body. cbv zeta. fold k n. rewrite H. reflexivity. Qed.

Lemma format_body_point :
  ((k <=? n)%Z && (n <=? 21)%Z) = false -> ((0 <? n)%Z && (n <=? 21)%Z) = true ->
  format_body ds e = (firstn (Z.to_nat n) ds ++ "."%char :: skipn (Z.to_nat n) ds)%list.
Proof. intros H1 H2. unfold format_body. cbv zeta. fold k n. rewrite H1, H2. reflexivity. Qed.

Lemma format_body_small :
  ((k <=? n)%Z && (n <=? 21)%Z) = false -> ((0 <? n)%Z && (n <=? 21)%Z) = false ->
  ((-6 <? n)%Z && (n <=? 0)%Z) = true ->
  format_body ds e = "0"%char :: "."%char :: (repeat "0"%char (Z.to_nat (- n)) ++ ds)%list.
Proof. intros H1 H2 H3. unfold format_body. cbv zeta. fold k n. rewrite H1, H2, H3. reflexivity. Qed.

Lemma format_body_exp :
  ((k <=? n)%Z && (n <=? 21)%Z) = false -> ((0 <? n)%Z && (n <=? 21)%Z) = false ->
  ((-6 <? n)%Z && (n <=? 0)%Z) = false ->
  format_body ds e =
    (firstn 1 ds ++ (if (1 <? k)%Z then "."%char :: skipn 1 ds else [])
     ++ "e"%char :: (if (0 <=? n - 1)%Z then "+"%char else "-"%char)
     :: decimal (Z.abs (n - 1)))%list.
Proof. intros H1 H2 H3. unfold format_body. cbv zeta. fold k n. rewrite H1, H2, H3. reflexivity. Qed.
End FormatBody.

Ltac zbool H :=
  repeat rewrite ?andb_true_iff, ?andb_false_iff, ?Z.leb_le, ?Z.leb_gt, ?Z.ltb_lt, ?Z.ltb_ge in H.

Lemma exp_part_decimal (x : Z) (rest : list ascii) :
  ends_value rest = true ->
  parse_exp_part (("e"%char :: (if (0 <=? x)%Z then "+"%char else "-"%char)
                    :: decimal (Z.abs x)) ++ rest)%list = Some (x, rest).
Proof.
  intro Hr. destruct (decimal_spec (Z.abs x)) as [Hne [Hd Hv]]; [lia|].
  remember (decimal (Z.abs x)) as D eqn:HD.
  destruct D as [|d0 ds0]; [contradiction|].
  pose proof (span_digits_app (d0 :: ds0) rest Hd (ends_value_no_digit rest Hr)) as Sp.
  cbn [app] in Sp.
  destruct (Z.leb_spec 0 x) as [Hx|Hx]; unfold parse_exp_part; cbn [app]; cbv beta iota;
    cbn [orb andb Ascii.eqb Bool.eqb]; cbv beta iota; rewrite Sp, Hv;
    f_equal; f_equal; lia.
Qed.

(** Each of the four layouts of Number::toString reads back as the number. *)
Lemma format_body_parse (neg : bool) (d : ascii) (ds' : list ascii) (lc : ascii)
    (rds : list ascii) (e : Z) (rest : list ascii) :
  forallb is_digit (d :: ds') = true -> is_zero_char d = false ->
  rev (d :: ds') = lc :: rds -> is_zero_char lc = false -> ends_value rest = true ->
  (exists b0 br, format_body (d :: ds') e = b0 :: br /\ is_digit b0 = true) /\
  parse_unsigned neg (format_body (d :: ds') e ++ rest) = Some (JNum neg (d :: ds') e, rest).
Proof.
  intros Hd Hnz Hr Hl Hrest.
  pose proof (ends_value_no_digit rest Hrest) as Hnd.
  pose proof Hd as Hd'. cbn [forallb] in Hd'. apply andb_true_iff in Hd' as [Hd0 Hds].
  pose proof (normalize_canonical neg d ds' lc rds) as Ncan.
  assert (Hk : Z.of_nat (length (d :: ds')) = (Z.of_nat (length ds') + 1)%Z)
    by (cbn [length]; lia).
  destruct ((Z.of_nat (length (d :: ds')) <=? Z.of_nat (length (d :: ds')) + e)%Z
            && (Z.of_nat (length (d :: ds')) + e <=? 21)%Z) eqn:HA.
  { (* digits followed by zeros *)
    rewrite (format_body_int _ _ HA). zbool HA.
    split; [exists d, (ds' ++ repeat "0"%char (Z.to_nat e))%list; split; [reflexivity | exact Hd0]|].
    unfold parse_unsigned.
    assert (HI : parse_int_part (((d :: ds') ++ repeat "0"%char (Z.to_nat e)) ++ rest)%list
                 = Some ((d :: ds') ++ repeat "0"%char (Z.to_nat e), rest)%list).
    { cbn [app]. unfold parse_int_part. cbv beta iota. rewrite Hnz, Hd0.
      rewrite (span_digits_app (ds' ++ repeat "0"%char (Z.to_nat e))%list rest);
        [reflexivity | | exact Hnd].
      rewrite forallb_app, Hds, forallb_repeat_zero. reflexivity. }
    rewrite HI, frac_part_end, exp_part_end by exact Hrest. rewrite app_nil_r.
    pose proof (normalize_number_zeros neg 0 (Z.to_nat e) d ds' lc rds
                  (0 - Z.of_nat (length (@nil ascii)))%Z Hnz Hr Hl) as N.
    cbn [repeat app] in N. cbn [app]. rewrite N. do 3 f_equal. cbn [length]. lia. }
  destruct ((0 <? Z.of_nat (length (d :: ds')) + e)%Z
            && (Z.of_nat (length (d :: ds')) + e <=? 21)%Z) eqn:HB.
  { (* a point inside the digits *)
    rewrite (format_body_point _ _ HA HB). zbool HA. zbool HB.
    destruct (Z.to_nat (Z.of_nat (length (d :: ds')) + e)) as [|N'] eqn:HN; [lia|].
    cbn [firstn skipn].
    pose proof (firstn_skipn N' ds') as FS.
    pose proof (length_skipn N' ds') as LS.
    pose proof Hds as Hds2. rewrite <- FS, forallb_app in Hds2.
    apply andb_true_iff in Hds2 as [Hf Hs].
    destruct (skipn N' ds') as [|s0 ss] eqn:HS; [cbn [length] in LS; lia|].
    split; [eexists d, _; split; [reflexivity | exact Hd0]|].
    unfold parse_unsigned.
    assert (HI : parse_int_part (((d :: firstn N' ds') ++ "."%char :: s0 :: ss) ++ rest)%list
                 = Some (d :: firstn N' ds', ("."%char :: s0 :: ss) ++ rest)%list).
    { cbn [app]. unfold parse_int_part. cbv beta iota. rewrite Hnz, Hd0.
      rewrite <- app_assoc, span_digits_app; [reflexivity | exact Hf | reflexivity]. }
    assert (HF : parse_frac_part (("."%char :: s0 :: ss) ++ rest)%list
                 = Some (s0 :: ss, rest)).
    { pose proof (span_digits_app (s0 :: ss) rest Hs Hnd) as Sp. cbn [app] in Sp |- *.
      unfold parse_frac_part. cbv beta iota. rewrite Ascii.eqb_refl, Sp. reflexivity. }
    rewrite HI, HF, exp_part_end by exact Hrest.
    assert (E : ((d :: firstn N' ds') ++ s0 :: ss)%list = d :: ds')
      by (rewrite <- HS; cbn [app]; rewrite firstn_skipn; reflexivity).
    rewrite E, Ncan by assumption. do 3 f_equal.
    cbn [length] in LS |- *. lia. }
  destruct ((-6 <? Z.of_nat (length (d :: ds')) + e)%Z
            && (Z.of_nat (length (d :: ds')) + e <=? 0)%Z) eqn:HC.
  { (* 0. followed by zeros and the digits *)
    rewrite (format_body_small _ _ HA HB HC). zbool HA. zbool HB. zbool HC.
    set (M := Z.to_nat (- (Z.of_nat (length (d :: ds')) + e))).
    split; [eexists "0"%char, _; split; reflexivity|].
    unfold parse_unsigned.
    assert (HI : parse_int_part (("0"%char :: "."%char :: (repeat "0"%char M ++ d :: ds')) ++ rest)%list
                 = Some (["0"%char], ("."%char :: (repeat "0"%char M ++ d :: ds')) ++ rest)%list)
      by reflexivity.
    assert (HF : parse_frac_part (("."%char :: (repeat "0"%char M ++ d :: ds')) ++ rest)%list
                 = Some ((repeat "0"%char M ++ d :: ds')%list, rest)).
    { assert (Hall : forallb is_digit (repeat "0"%char M ++ d :: ds')%list = true)
        by (rewrite forallb_app, forallb_repeat_zero; exact Hd).
      pose proof (span_digits_app _ rest Hall Hnd) as Sp.
      unfold parse_frac_part. cbn [app]. cbv beta iota. rewrite Ascii.eqb_refl.
      rewrite Sp.
      destruct (repeat "0"%char M ++ d :: ds')%list eqn:E0; [|reflexivity].
      apply app_eq_nil in E0 as [_ E0]. discriminate. }
    rewrite HI, HF, exp_part_end by exact Hrest.
    pose proof (normalize_number_zeros neg (S M) 0 d ds' lc rds
       (0 - Z.of_nat (length (repeat "0"%char M ++ d :: ds')))%Z Hnz Hr Hl) as N.
    cbn [repeat app] in N. rewrite app_nil_r in N. cbn [app]. rewrite N.
    do 3 f_equal. rewrite length_app, repeat_length. unfold M. cbn [length] in *. lia. }
  (* exponent form *)
  rewrite (format_body_exp _ _ HA HB HC). zbool HA. zbool HB. zbool HC.
  cbn [firstn skipn].
  destruct (1 <? Z.of_nat (length (d :: ds')))%Z eqn:HK.
  - apply Z.ltb_lt in HK. destruct ds' as [|d1 ds1]; [cbn in HK; lia|].
    split; [eexists d, _; split; [reflexivity | exact Hd0]|].
    unfold parse_unsigned.
    set (T := ("e"%char :: (if (0 <=? Z.of_nat (length (d :: d1 :: ds1)) + e - 1)%Z
                            then "+"%char else "-"%char)
               :: decimal (Z.abs (Z.of_nat (length (d :: d1 :: ds1)) + e - 1)))%list).
    assert (HI : parse_int_part (([d] ++ ("."%char :: d1 :: ds1) ++ T) ++ rest)%list
                 = Some ([d], ("."%char :: d1 :: ds1 ++ T) ++ rest)%list).
    { cbn [app]. unfold parse_int_part. cbv beta iota. rewrite Hnz, Hd0. reflexivity. }
    assert (HF : parse_frac_part (("."%char :: d1 :: ds1 ++ T) ++ rest)%list
                 = Some (d1 :: ds1, T ++ rest)%list).
    { assert (Hnd' : no_digit_head (T ++ rest)%list = true) by reflexivity.
      pose proof (span_digits_app (d1 :: ds1) (T ++ rest) Hds Hnd') as Sp.
      cbn [app] in Sp |- *. unfold parse_frac_part. cbv beta iota.
      rewrite Ascii.eqb_refl. rewrite app_assoc in Sp. rewrite Sp. reflexivity. }
    rewrite HI, HF. unfold T. rewrite exp_part_decimal by exact Hrest.
    cbn [app]. rewrite Ncan by assumption. do 3 f_equal. cbn [length] in *. lia.
  - apply Z.ltb_ge in HK. destruct ds' as [|d1 ds1]; [|cbn in HK; lia].
    split; [eexists d, _; split; [reflexivity | exact Hd0]|].
    unfold parse_unsigned.
    set (T := ("e"%char :: (if (0 <=? Z.of_nat (length [d]) + e - 1)%Z
                            then "+"%char else "-"%char)
               :: decimal (Z.abs (Z.of_nat (length [d]) + e - 1)))%list).
    assert (HI : parse_int_part (([d] ++ [] ++ T) ++ rest)%list = Some ([d], T ++ rest)%list).
    { cbn [app]. unfold parse_int_part. cbv beta iota. rewrite Hnz, Hd0. reflexivity. }
    assert (HF : parse_frac_part (T ++ rest)%list = Some ([], T ++ rest)%list) by reflexivity.
    rewrite HI, HF. unfold T. rewrite exp_part_decimal by exact Hrest.
    cbn [app]. rewrite Ncan by assumption. do 3 f_equal. cbn [length] in *. lia.
Qed.

Lemma single_zero (ds : list ascii) :
  match ds with ["0"%char] => true | _ => false end = true -> ds = ["0"%char].
Proof.
  destruct ds as [|c r]; [discriminate|].
  destruct c as [[] [] [] [] [] [] [] []]; destruct r; try discriminate. reflexivity.
Qed.

Lemma number_round_trip (neg : bool) (ds : list ascii) (e : Z) (rest : list ascii) :
  number_wf neg ds e = true -> ends_value rest = true ->
  (exists c r, format_number neg ds e = c :: r /\ (Ascii.eqb c "-"%char || is_digit c) = true)
  /\ parse_number (format_number neg ds e ++ rest) = Some (JNum neg ds e, rest).
Proof.
  intros Hwf Hrest. unfold number_wf in Hwf. apply orb_true_iff in Hwf as [Z0 | NZ].
  - apply andb_true_iff in Z0 as [[Hds He]%andb_true_iff Hneg].
    apply single_zero in Hds. apply Z.eqb_eq in He. destruct neg; [discriminate|].
    subst ds e.
    change (format_number false ["0"%char] 0%Z) with ["0"%char].
    split; [exists "0"%char, []; split; reflexivity|].
    cbn [app]. unfold parse_number. cbv beta iota.
    rewrite (digit_not_minus "0"%char eq_refl). unfold parse_unsigned.
    change (parse_int_part ("0"%char :: rest)) with (Some (["0"%char], rest)).
    cbv beta iota. rewrite frac_part_end, exp_part_end by exact Hrest. reflexivity.
  - apply andb_true_iff in NZ as [[Hd Hh]%andb_true_iff Hl].
    destruct ds as [|d ds']; [discriminate|].
    apply negb_true_iff in Hh.
    destruct (rev (d :: ds')) as [|lc rds] eqn:Hr; [discriminate|].
    apply negb_true_iff in Hl.
    destruct (format_body_parse neg d ds' lc rds e rest Hd Hh Hr Hl Hrest)
      as [[b0 [br [Hb Hb0]]] P].
    unfold format_number. destruct neg.
    + split; [exists "-"%char, (format_body (d :: ds') e); split; reflexivity|].
      cbn [app]. exact P.
    + split; [exists b0, br; split; [exact Hb | rewrite Hb0, orb_true_r; reflexivity]|].
      rewrite Hb in P |- *. cbn [app] in P |- *. unfold parse_number. cbv beta iota.
      rewrite (digit_not_minus b0 Hb0). exact P.
Qed.

(** One character of a string literal reads back through its escape. *)
Lemma escape_char_parse (c : ascii) (r : list ascii) :
  parse_string_body (escape_char c ++ r) =
  match parse_string_body r with
  | Some (s, r') => Some (c :: s, r')
  | None => None
  end.
Proof.
  destruct c as [[] [] [] [] [] [] [] []]; reflexivity.
Qed.

Lemma quote_parse (l rest : list ascii) :
  parse_string_body (flat_map escape_char l ++ quote_char :: rest) = Some (l, rest).
Proof.
  induction l as [|c l IH]; [reflexivity|].
  cbn [flat_map]. rewrite <- app_assoc, escape_char_parse, IH. reflexivity.
Qed.

Lemma skip_ws_nonspace (c : ascii) (r : list ascii) :
  is_json_ws c = false -> skip_ws (c :: r) = c :: r.
Proof. intro H. cbn [skip_ws]. rewrite H. reflexivity. Qed.

Lemma stringify_head (v : json) :
  json_wf v = true ->
  exists c r, stringify v = c :: r /\ is_json_ws c = false /\ Ascii.eqb c "]"%char = false.
Proof.
  intro Hwf. destruct v as [| [] | neg ds e | s | vs | ps];
    try (eexists _, _; split; [reflexivity | split; reflexivity]).
  cbn [json_wf] in Hwf.
  destruct (number_round_trip neg ds e [] Hwf eq_refl) as [[c [r [Hc Hd]]] _].
  exists c, r. split; [exact Hc|]. exact (digit_not_ws c Hd).
Qed.

Lemma ends_value_tail (ts : list (list ascii)) (close : ascii) (rest : list ascii) :
  Ascii.eqb close "]"%char || Ascii.eqb close "}"%char = true ->
  ends_value (flat_map (fun y => ","%char :: y) ts ++ close :: rest)%list = true.
Proof.
  intro H. destruct ts as [|t ts]; [|reflexivity].
  cbn [flat_map app ends_value]. rewrite <- orb_assoc, H, orb_true_r. reflexivity.
Qed.

Lemma array_tail_parse (ws : list json) (f : nat) (rest : list ascii) :
  Forall round_trips ws -> forallb json_wf ws = true -> ends_value rest = true ->
  (length (flat_map (fun y => ","%char :: y) (map stringify ws)) < f)%nat ->
  parse_array_tail f (flat_map (fun y => ","%char :: y) (map stringify ws) ++ "]"%char :: rest)%list
  = Some (ws, rest).
Proof.
  revert f. induction ws as [|w ws IH]; intros f HQ Hwf Hrest Hlen.
  - destruct f as [|f]; [cbn in Hlen; lia|]. reflexivity.
  - inversion HQ as [|? ? Hw HQs]; subst.
    cbn [forallb] in Hwf. apply andb_true_iff in Hwf as [Hw0 Hws].
    destruct f as [|f]; [cbn in Hlen; lia|].
    cbn [map flat_map] in Hlen |- *. cbn [app]. rewrite <- app_assoc.
    cbn [parse_array_tail]. rewrite skip_ws_nonspace by reflexivity. cbv beta iota.
    rewrite Hw; [| exact Hw0 | apply ends_value_tail; reflexivity |].
    + rewrite IH; [reflexivity | exact HQs | exact Hws | exact Hrest |].
      rewrite length_app in Hlen. cbn [length] in Hlen. lia.
    + rewrite length_app in Hlen. cbn [length] in Hlen. lia.
Qed.

Lemma keys_distinct_split (l1 l2 : list string) (k : string) :
  keys_distinct (l1 ++ k :: l2) = true -> existsb (String.eqb k) l1 = false.
Proof.
  induction l1 as [|x l1 IH]; [reflexivity|].
  cbn [app keys_distinct existsb]. intro H. apply andb_true_iff in H as [H1 H2].
  rewrite (IH H2), orb_false_r.
  destruct (String.eqb_spec k x) as [E|E]; [|reflexivity].
  subst x. apply negb_true_iff in H1. rewrite existsb_app in H1. cbn in H1.
  rewrite String.eqb_refl, orb_true_r in H1. discriminate.
Qed.

Lemma set_prop_new (k : string) (v : json) (acc : list (string * json)) :
  existsb (String.eqb k) (map fst acc) = false -> set_prop k v acc = (acc ++ [(k, v)])%list.
Proof.
  induction acc as [|[k' v'] acc IH]; [reflexivity|].
  cbn [map fst existsb]. intro H. apply orb_false_iff in H as [H1 H2].
  cbn [set_prop]. rewrite H1, (IH H2). reflexivity.
Qed.

Lemma member_parse (k : string) (v : json) (f : nat) (rest : list ascii) :
  round_trips v -> json_wf v = true -> ends_value rest = true ->
  (S (length (stringify v)) < f)%nat ->
  parse_member f ((quote_l (list_ascii_of_string k) ++ ":"%char :: stringify v) ++ rest)%list
  = Some ((k, v), rest).
Proof.
  intros Hv Hwf Hrest Hlen. destruct f as [|f]; [lia|].
  assert (E : ((quote_l (list_ascii_of_string k) ++ ":"%char :: stringify v) ++ rest)%list
              = quote_char :: (flat_map escape_char (list_ascii_of_string k)
                               ++ quote_char :: ":"%char :: (stringify v ++ rest))%list).
  { unfold quote_l. cbn [app]. rewrite <- !app_assoc. reflexivity. }
  rewrite E. cbn [parse_member]. rewrite skip_ws_nonspace by reflexivity.
  cbv beta iota. rewrite Ascii.eqb_refl, quote_parse.
  rewrite skip_ws_nonspace by reflexivity. cbv beta iota.
  rewrite Hv; [| exact Hwf | exact Hrest | lia].
  rewrite string_of_list_ascii_of_string. reflexivity.
Qed.

Lemma object_tail_parse (ps acc : list (string * json)) (f : nat) (rest : list ascii) :
  Forall (fun kv => round_trips (snd kv)) ps ->
  forallb (fun kv => json_wf (snd kv)) ps = true ->
  keys_distinct (map fst acc ++ map fst ps) = true -> ends_value rest = true ->
  (length (flat_map (fun y => ","%char :: y)
             (map (fun kv => (quote_l (list_ascii_of_string (fst kv))
                              ++ ":"%char :: stringify (snd kv))%list) ps)) < f)%nat ->
  parse_object_tail f acc
    (flat_map (fun y => ","%char :: y)
       (map (fun kv => (quote_l (list_ascii_of_string (fst kv))
                        ++ ":"%char :: stringify (snd kv))%list) ps) ++ "}"%char :: rest)%list
  = Some ((acc ++ ps)%list, rest).
Proof.
  revert acc f. induction ps as [|[k v] ps IH]; intros acc f HQ Hwf Hkeys Hrest Hlen.
  - destruct f as [|f]; [cbn in Hlen; lia|].
    cbn [map flat_map app parse_object_tail]. rewrite skip_ws_nonspace by reflexivity.
    cbv beta iota. rewrite app_nil_r. reflexivity.
  - inversion HQ as [|? ? Hv HQs]; subst. cbn [snd] in Hv.
    cbn [forallb snd] in Hwf. apply andb_true_iff in Hwf as [Hv0 Hps].
    destruct f as [|f]; [cbn in Hlen; lia|].
    cbn [map flat_map fst snd] in Hlen |- *. cbn [app]. rewrite <- app_assoc.
    rewrite length_app in Hlen. cbn [length] in Hlen.
    cbn [parse_object_tail]. rewrite skip_ws_nonspace by reflexivity. cbv beta iota.
    rewrite member_parse; [| exact Hv | exact Hv0 | apply ends_value_tail; reflexivity |].
    2: { unfold quote_l in Hlen. rewrite length_app in Hlen. cbn [length] in Hlen. lia. }
    cbv beta iota.
    cbn [map] in Hkeys.
    rewrite set_prop_new by exact (keys_distinct_split _ _ _ Hkeys).
    rewrite IH; [rewrite <- app_assoc; reflexivity | exact HQs | exact Hps | | exact Hrest | lia].
    rewrite map_app, <- app_assoc. exact Hkeys.
Qed.

Lemma parse_value_number (f : nat) (c : ascii) (r : list ascii) :
  (Ascii.eqb c "-"%char || is_digit c) = true ->
  parse_value (S f) (c :: r) = parse_number (c :: r).
Proof.
  intro H. destruct (digit_not_ws c H) as [Hw _].
  cbn [parse_value]. rewrite skip_ws_nonspace by exact Hw. cbv beta iota.
  rewrite H. reflexivity.
Qed.

Lemma parse_value_string (f : nat) (r : list ascii) :
  parse_value (S f) (quote_char :: r) =
  match parse_string_body r with
  | Some (s, r') => Some (JStr (string_of_list_ascii s), r')
  | None => None
  end.
Proof. reflexivity. Qed.

Lemma parse_value_array (f : nat) (r : list ascii) :
  parse_value (S f) ("["%char :: r) =
  if head_is "]"%char (skip_ws r) then Some (JArr [], tl (skip_ws r))
  else
    match parse_value f (skip_ws r) with
    | Some (v, r1) =>
        match parse_array_tail f r1 with
        | Some (vs, r2) => Some (JArr (v :: vs), r2)
        | None => None
        end
    | None => None
    end.
Proof. reflexivity. Qed.

Lemma parse_value_object (f : nat) (r : list ascii) :
  parse_value (S f) ("{"%char :: r) =
  if head_is "}"%char (skip_ws r) then Some (JObj [], tl (skip_ws r))
  else
    match parse_member f (skip_ws r) with
    | Some ((k, v), r1) =>
        match parse_object_tail f [(k, v)] r1 with
        | Some (ps, r2) => Some (JObj ps, r2)
        | None => None
        end
    | None => None
    end.
Proof. reflexivity. Qed.

(** Every JavaScript-representable JSON value reads back from its text. *)
Lemma json_round_trip (v : json) : round_trips v.
Proof.
  induction v as [| b | neg ds e | s | vs IH | ps IH] using json_ind';
    unfold round_trips; intros Hwf f rest Hrest Hlen;
    (destruct f as [|f]; [lia|]).
  - reflexivity.
  - destruct b; reflexivity.
  - cbn [json_wf] in Hwf.
    destruct (number_round_trip neg ds e rest Hwf Hrest) as [[c [r [Hc Hd]]] P].
    cbn [stringify] in *. rewrite Hc in P |- *. cbn [app] in P |- *.
    rewrite parse_value_number by exact Hd. exact P.
  - assert (E : (stringify (JStr s) ++ rest)%list
                = quote_char :: (flat_map escape_char (list_ascii_of_string s)
                                 ++ quote_char :: rest)%list)
      by (cbn [stringify]; unfold quote_l; cbn [app]; rewrite <- app_assoc; reflexivity).
    rewrite E, parse_value_string, quote_parse, string_of_list_ascii_of_string. reflexivity.
  - destruct vs as [|w ws]; [reflexivity|].
    inversion IH as [|? ? Hw HQs]; subst.
    cbn [json_wf forallb] in Hwf. apply andb_true_iff in Hwf as [Hw0 Hws].
    set (T := flat_map (fun y => ","%char :: y) (map stringify ws)).
    assert (ES : stringify (JArr (w :: ws)) = "["%char :: (stringify w ++ T ++ ["]"%char])%list)
      by (cbn [stringify map join_comma]; rewrite <- app_assoc; reflexivity).
    rewrite ES in Hlen |- *. cbn [length] in Hlen. rewrite !length_app in Hlen.
    cbn [length] in Hlen.
    cbn [app]. rewrite <- !app_assoc. cbn [app].
    rewrite parse_value_array.
    destruct (stringify_head w Hw0) as [c [r [Hc [Hs Hb]]]].
    rewrite Hc. cbn [app]. rewrite skip_ws_nonspace by exact Hs.
    cbn [head_is]. rewrite Hb.
    change (c :: (r ++ T ++ "]"%char :: rest))%list with ((c :: r) ++ T ++ "]"%char :: rest)%list.
    rewrite <- Hc.
    rewrite Hw; [| exact Hw0 | apply ends_value_tail; reflexivity | lia].
    unfold T in *. rewrite array_tail_parse; [reflexivity | exact HQs | exact Hws | exact Hrest | lia].
  - destruct ps as [|[k v] ps]; [reflexivity|].
    inversion IH as [|? ? Hv HQs]; subst. cbn [snd] in Hv.
    cbn [json_wf forallb snd] in Hwf.
    apply andb_true_iff in Hwf as [Hkeys Hwf]. apply andb_true_iff in Hwf as [Hv0 Hps].
    set (M := fun kv : string * json =>
                (quote_l (list_ascii_of_string (fst kv)) ++ ":"%char :: stringify (snd kv))%list).
    set (T := flat_map (fun y => ","%char :: y) (map M ps)).
    assert (ES : stringify (JObj ((k, v) :: ps))
                 = "{"%char :: ((quote_l (list_ascii_of_string k) ++ ":"%char :: stringify v)
                                ++ T ++ ["}"%char])%list)
      by (cbn [stringify map join_comma fst snd]; rewrite <- app_assoc; reflexivity).
    rewrite ES in Hlen |- *. cbn [length] in Hlen. rewrite !length_app in Hlen.
    cbn [length] in Hlen.
    set (F := flat_map escape_char (list_ascii_of_string k)).
    assert (EX : (("{"%char :: ((quote_l (list_ascii_of_string k) ++ ":"%char :: stringify v)
                               ++ T ++ ["}"%char])) ++ rest
                 = "{"%char :: quote_char
                   :: (F ++ quote_char :: ":"%char :: stringify v ++ T ++ "}"%char :: rest))%list)
      by (unfold quote_l; cbn [app]; rewrite <- !app_assoc; reflexivity).
    assert (EM : (((quote_l (list_ascii_of_string k) ++ ":"%char :: stringify v)
                  ++ T ++ "}"%char :: rest)
                 = (quote_char
                    :: (F ++ quote_char :: ":"%char :: stringify v ++ T ++ "}"%char :: rest)))%list)
      by (unfold quote_l; cbn [app]; rewrite <- !app_assoc; reflexivity).
    rewrite EX, parse_value_object, skip_ws_nonspace by reflexivity.
    change (head_is "}"%char (quote_char :: ?x)) with false. cbv beta iota.
    rewrite <- EM.
    rewrite member_parse; [| exact Hv | exact Hv0 | apply ends_value_tail; reflexivity | lia].
    cbv beta iota.
    unfold T, M in *.
    rewrite object_tail_parse;
      [reflexivity | exact HQs | exact Hps | exact Hkeys | exact Hrest | lia].
Qed.

(** C4.  [parseJsonField] (src/src/dbUtils.ts) never throws: it is a total
    function of its argument.  For every list [l] of JSON values a
    JavaScript program can hold (finite numbers, objects without repeated
    keys), [parseJsonField(JSON.stringify(l))] returns [l], in order.  The
    empty string, [null] and [undefined] give the empty list.  A non-empty
    string that [JSON.parse] rejects is split on commas into trimmed,
    non-empty pieces. *)
Theorem parseJsonField_round_trip :
  (forall l : list json, forallb json_wf l = true ->
     parseJsonField (Some (JStr (JSON_stringify (JArr l)))) = l)
  /\ parseJsonField (Some (JStr "")) = []
  /\ parseJsonField (Some JNull) = []
  /\ parseJsonField None = []
  /\ (forall s : string, s <> "" -> JSON_parse s = None ->
        parseJsonField (Some (JStr s))
        = map JStr (filter (fun t => negb (String.eqb t ""))
                      (map js_trim (js_split ","%char s)))).
Proof.
  split; [|split; [reflexivity | split; [reflexivity | split; [reflexivity |]]]].
  - intros l Hl.
    pose proof (json_round_trip (JArr l) Hl (S (length (stringify (JArr l)))) []
                  eq_refl (Nat.lt_succ_diag_r _)) as P.
    rewrite app_nil_r in P.
    assert (Hne : String.eqb (string_of_list_ascii (stringify (JArr l))) "" = false)
      by (cbn [stringify string_of_list_ascii]; reflexivity).
    unfold parseJsonField, JSON_stringify, JSON_parse. cbv zeta.
    rewrite Hne, list_ascii_of_string_of_list_ascii, P. reflexivity.
  - intros s Hs Hp. unfold parseJsonField. rewrite Hp.
    destruct (String.eqb_spec s "") as [E|_]; [contradiction | reflexivity].
Qed.

Lemma parseJsonField_round_trip_witness :
  forallb json_wf [JStr "Drama"; JNum false ["1"; "2"; "5"]%char (-1);
                   JObj [("name", JStr "Kim"); ("role", JNull)]; JArr [JBool true]] = true
  /\ parseJsonField
       (Some (JStr (JSON_stringify
          (JArr [JStr "Drama"; JNum false ["1"; "2"; "5"]%char (-1);
                 JObj [("name", JStr "Kim"); ("role", JNull)]; JArr [JBool true]]))))
     = [JStr "Drama"; JNum false ["1"; "2"; "5"]%char (-1);
        JObj [("name", JStr "Kim"); ("role", JNull)]; JArr [JBool true]]
  /\ "Action, Drama" <> ""
  /\ JSON_parse "Action, Drama" = None
  /\ parseJsonField (Some (JStr "Action, Drama")) = [JStr "Action"; JStr "Drama"].
Proof.
  destruct parseJsonField_round_trip as [H1 [_ [_ [_ H5]]]].
  split; [vm_compute; reflexivity|].
  split; [apply H1; vm_compute; reflexivity|].
  split; [discriminate|].
  split; [vm_compute; reflexivity|].
  rewrite H5; [vm_compute; reflexivity | discriminate | vm_compute; reflexivity].
Defined.

(* ------------------------------------------------------------------ *)
(** ** [POST /movie_collections] *)

Lemma collection_fold_max_init (l : list CollectionRow) (m : Z) :
  (m <= fold_left (fun m r => Z.max m (coll_id r)) l m)%Z.
Proof.
  revert m; induction l as [|r l IH]; intro m; cbn [fold_left]; [lia|].
  specialize (IH (Z.max m (coll_id r))); lia.
Qed.

Lemma collection_fold_max_elem (l : list CollectionRow) (m : Z) (r : CollectionRow) :
  In r l -> (coll_id r <= fold_left (fun m r => Z.max m (coll_id r)) l m)%Z.
Proof.
  revert m; induction l as [|r' l IH]; intros m Hin; [destruct Hin|].
  cbn [fold_left]; destruct Hin as [Heq|Hin]; [subst r'|apply IH; exact Hin].
  pose proof (collection_fold_max_init l (Z.max m (coll_id r))); lia.
Qed.

Lemma collection_name_existsb (db : list CollectionRow) (n : string) :
  existsb (fun r => String.eqb (coll_name r) n) db = true <-> In n (map coll_name db).
Proof.
  rewrite existsb_exists, in_map_iff; split.
  - intros [r [Hr Heq]]; apply String.eqb_eq in Heq; exists r; auto.
  - intros [r [Heq Hr]]; exists r; split; [exact Hr|]; apply String.eqb_eq; exact Heq.
Qed.

Lemma collection_new_id_fresh (db : list CollectionRow) :
  let nid := (fold_left (fun m r => Z.max m (coll_id r)) db 0 + 1)%Z in
  (0 < nid)%Z /\ ~ In nid (map coll_id db).
Proof.
  cbv zeta; split.
  - pose proof (collection_fold_max_init db 0); lia.
  - rewrite in_map_iff; intros [r [Hr Hin]].
    pose proof (collection_fold_max_elem db 0 r Hin); lia.
Qed.

(** C7. POST /movie_collections, as the router of unnamed/part_001 (and
    unnamed/part_000) implements it, for a body that parses to an object: a
    missing, null or blank (after trim) [name] gives 400 and leaves the
    table unchanged; a trimmed name already in the table gives 409
    "Collection name already exists" and leaves it unchanged; any other name
    is stored under a new positive id and the response is 201 with that id
    and the trimmed name.  The router src/index.ts mounts (src/movieApi.ts)
    has this route commented out, so there the request gets the 404 JSON of
    [app.notFound]. *)
Theorem postMovieCollection_status (db : list CollectionRow) (body : string)
    (ps : list (string * json)) (Hbody : JSON_parse body = Some (JObj ps)) :
  ((get_prop "name" ps = None \/ get_prop "name" ps = Some JNull
    \/ exists s, get_prop "name" ps = Some (JStr s) /\ js_trim s = "") ->
   postMovieCollection db body = (JsonResp 400 (JObj [("error", JStr "Name required")]), db))
  /\ (forall s, get_prop "name" ps = Some (JStr s) -> js_trim s <> "" ->
      In (js_trim s) (map coll_name db) ->
      postMovieCollection db body =
        (JsonResp 409 (JObj [("error", JStr "Collection name already exists")]), db))
  /\ (forall s, get_prop "name" ps = Some (JStr s) -> js_trim s <> "" ->
      ~ In (js_trim s) (map coll_name db) ->
      exists nid, (0 < nid)%Z /\ ~ In nid (map coll_id db) /\
      postMovieCollection db body =
        (JsonResp 201 (JObj [("id", json_of_Z nid); ("name", JStr (js_trim s))]),
         (db ++ [mkCollectionRow nid (js_trim s)])%list))
  /\ mounted_movieApi_post "/movie_collections" =
       FallThrough (JsonResp 404 (JObj [("error", JStr "Not Found");
                                        ("message", JStr "API endpoint not found.")])).
Proof.
  unfold postMovieCollection; rewrite Hbody; unfold payload_name_trim.
  split; [|split; [|split]].
  - intros [H|[H|[s [H Hs]]]]; rewrite H; [reflexivity|reflexivity|].
    rewrite Hs; reflexivity.
  - intros s H Hne Hin; rewrite H.
    apply String.eqb_neq in Hne; rewrite Hne.
    unfold insert_collection; rewrite (proj2 (collection_name_existsb db (js_trim s)) Hin).
    reflexivity.
  - intros s H Hne Hin; rewrite H.
    apply String.eqb_neq in Hne; rewrite Hne.
    unfold insert_collection.
    destruct (existsb (fun r => String.eqb (coll_name r) (js_trim s)) db) eqn:E.
    + apply collection_name_existsb in E; contradiction.
    + destruct (collection_new_id_fresh db) as [Hpos Hfresh].
      eexists; split; [exact Hpos|]; split; [exact Hfresh|].
      replace (Z.eqb (fold_left (fun m r => Z.max m (coll_id r)) db 0 + 1) 0)%Z with false
        by (symmetry; apply Z.eqb_neq; lia).
      reflexivity.
  - reflexivity.
Qed.

(** The example of the spec on the router of unnamed/part_001: creating
    " Favorites " in an empty table gives 201 with id 1 and the trimmed name;
    creating it again gives 409 and no new row. *)
Lemma postMovieCollection_status_witness :
  JSON_parse ("{" ++ dq ++ "name" ++ dq ++ ": " ++ dq ++ " Favorites " ++ dq ++ "}")
    = Some (JObj [("name", JStr " Favorites ")])
  /\ postMovieCollection [] ("{" ++ dq ++ "name" ++ dq ++ ": " ++ dq ++ " Favorites " ++ dq ++ "}")
    = (JsonResp 201 (JObj [("id", JNum false ["1"%char] 0); ("name", JStr "Favorites")]),
       [mkCollectionRow 1 "Favorites"])
  /\ postMovieCollection [mkCollectionRow 1 "Favorites"]
       ("{" ++ dq ++ "name" ++ dq ++ ": " ++ dq ++ " Favorites " ++ dq ++ "}")
    = (JsonResp 409 (JObj [("error", JStr "Collection name already exists")]),
       [mkCollectionRow 1 "Favorites"]).
Proof.
  split; [vm_compute; reflexivity|split; [vm_compute; reflexivity|]].
  refine (proj1 (proj2 (postMovieCollection_status [mkCollectionRow 1 "Favorites"]
            ("{" ++ dq ++ "name" ++ dq ++ ": " ++ dq ++ " Favorites " ++ dq ++ "}")
            [("name", JStr " Favorites ")] _)) " Favorites " _ _ _).
  - vm_compute; reflexivity.
  - vm_compute; reflexivity.
  - vm_compute; discriminate.
  - vm_compute; left; reflexivity.
Defined.

(** The router src/index.ts mounts has no POST route for
    [/movie_collections]: a logged-in request to create a collection, with
    any body, reaches no handler and is answered 404 "Not Found", never 201
    or 409. *)
Lemma postMovieCollection_status_cex :
  (forall route, mounted_movieApi_post "/movie_collections" <> MovieApiRoute route)
  /\ mounted_movieApi_post "/movie_collections" =
       FallThrough (JsonResp 404 (JObj [("error", JStr "Not Found");
                                        ("message", JStr "API endpoint not found.")]))
  /\ mounted_movieApi_post "/items/42/like" = MovieApiRoute "/items/:item_id_or_num/like".
Proof.
  split; [intros route; vm_compute; discriminate|split; vm_compute; reflexivity].
Qed.

(* ------------------------------------------------------------------ *)
(** ** R2 keys: collapsing doubled slashes *)

Lemma collapse_cons2 (a b : ascii) (r : list ascii) :
  collapse_double_slash (a :: b :: r) =
  if Ascii.eqb a "/" && Ascii.eqb b "/" then "/"%char :: collapse_double_slash r
  else a :: collapse_double_slash (b :: r).
Proof.
  destruct a as [[] [] [] [] [] [] [] []]; try reflexivity;
  destruct b as [[] [] [] [] [] [] [] []]; reflexivity.
Qed.

Lemma collapse_single (a : ascii) : collapse_double_slash [a] = [a].
Proof. destruct a as [[] [] [] [] [] [] [] []]; reflexivity. Qed.

Lemma collapse_starts (l : list ascii) : starts_slash (collapse_double_slash l) = starts_slash l.
Proof.
  destruct l as [|a [|b r]]; [reflexivity|rewrite collapse_single; reflexivity|].
  rewrite collapse_cons2. destruct (Ascii.eqb a "/") eqn:Ea; cbn [andb].
  - destruct (Ascii.eqb b "/"); cbn; [|]; rewrite ?Ea; reflexivity.
  - reflexivity.
Qed.

Lemma contains2_cons (x : ascii) (l : list ascii) :
  contains_sub ["/"%char; "/"%char] (x :: l) =
  (Ascii.eqb x "/" && starts_slash l) || contains_sub ["/"%char; "/"%char] l.
Proof.
  cbn [contains_sub list_prefix]. rewrite (Ascii.eqb_sym "/" x).
  destruct l as [|y l]; cbn [starts_slash]; [now rewrite !andb_false_r|].
  rewrite (Ascii.eqb_sym "/" y), andb_true_r. reflexivity.
Qed.

Lemma contains3_cons (x : ascii) (l : list ascii) :
  contains_sub ["/"%char; "/"%char; "/"%char] (x :: l) =
  (Ascii.eqb x "/" && list_prefix ["/"%char; "/"%char] l) || contains_sub ["/"%char; "/"%char; "/"%char] l.
Proof.
  cbn [contains_sub list_prefix]. rewrite (Ascii.eqb_sym "/" x). reflexivity.
Qed.

Lemma prefix2_starts (l : list ascii) :
  list_prefix ["/"%char; "/"%char] l = true -> starts_slash l = true.
Proof.
  destruct l as [|y l]; cbn; [discriminate|]. rewrite Ascii.eqb_sym. intros H.
  apply andb_prop in H; tauto.
Qed.

Lemma contains_collapse (n : nat) (l : list ascii) : (length l <= n)%nat ->
  contains_sub ["/"%char; "/"%char] (collapse_double_slash l) =
  contains_sub ["/"%char; "/"%char; "/"%char] l.
Proof.
  revert l; induction n as [|n IH]; intros l Hl.
  { destruct l; [reflexivity|cbn in Hl; lia]. }
  destruct l as [|a [|b r]]; [reflexivity| |].
  { rewrite collapse_single. rewrite contains2_cons, contains3_cons. cbn.
    now rewrite !andb_false_r. }
  cbn [length] in Hl. rewrite collapse_cons2.
  destruct (Ascii.eqb a "/") eqn:Ea, (Ascii.eqb b "/") eqn:Eb; cbn [andb].
  - rewrite contains2_cons, collapse_starts, IH by lia.
    rewrite !contains3_cons. rewrite Ea.
    cbn [andb list_prefix]. rewrite ?(Ascii.eqb_sym "/" b), ?Eb. cbn [andb].
    destruct r as [|c r]; [reflexivity|]. cbn [starts_slash].
    rewrite (Ascii.eqb_sym "/" c). destruct (Ascii.eqb c "/"); reflexivity.
  - rewrite contains2_cons, IH by (cbn; lia). rewrite collapse_starts. cbn [starts_slash].
    rewrite Eb, andb_false_r. cbn [orb].
    rewrite !contains3_cons, Ea. cbn [list_prefix].
    rewrite ?(Ascii.eqb_sym "/" b), ?Eb. simpl. reflexivity.
  - rewrite contains2_cons, IH by (cbn; lia). rewrite (contains3_cons a), Ea. reflexivity.
  - rewrite contains2_cons, IH by (cbn; lia). rewrite (contains3_cons a), Ea. reflexivity.
Qed.

(** X1. The R2 key clean-up [.replace(/\/\//g, '/')] makes one left-to-right
    pass over non-overlapping pairs of slashes: its result still contains
    two slashes in a row exactly when the input contains three. *)
Theorem replace_double_slash_runs (s : string) :
  contains_sub ["/"%char; "/"%char] (list_ascii_of_string (replace_double_slash s))
  = contains_sub ["/"%char; "/"%char; "/"%char] (list_ascii_of_string s).
Proof.
  unfold replace_double_slash. rewrite list_ascii_of_string_of_list_ascii.
  apply (contains_collapse (length (list_ascii_of_string s))). lia.
Qed.

(* ------------------------------------------------------------------ *)
(** ** [getClientIp] *)

Lemma or_else_nonempty (a : option string) (b : string) : b <> "" -> or_else a b <> "".
Proof.
  destruct a as [s|]; cbn; [|auto].
  destruct (String.eqb s "") eqn:E; [auto|]. apply String.eqb_neq in E; auto.
Qed.

Lemma list_ascii_of_string_app (x y : string) :
  list_ascii_of_string (x ++ y) = (list_ascii_of_string x ++ list_ascii_of_string y)%list.
Proof. induction x as [|c x IH]; cbn; [reflexivity|now rewrite IH]. Qed.

Lemma split_chars_nonnil (sep : ascii) (l : list ascii) : split_chars sep l <> [].
Proof.
  destruct l as [|c r]; cbn; [discriminate|].
  destruct (Ascii.eqb c sep); [discriminate|]. destruct (split_chars sep r); discriminate.
Qed.

Lemma split_chars_hd_app (sep : ascii) (l1 l2 : list ascii) :
  hd [] (split_chars sep (l1 ++ sep :: l2)%list) = hd [] (split_chars sep l1).
Proof.
  induction l1 as [|c r IH]; cbn [app split_chars].
  - rewrite Ascii.eqb_refl. reflexivity.
  - destruct (Ascii.eqb c sep); [reflexivity|].
    destruct (split_chars sep (r ++ sep :: l2)%list) as [|x xs] eqn:E1;
      [exfalso; exact (split_chars_nonnil _ _ E1)|].
    destruct (split_chars sep r) as [|y ys] eqn:E2;
      [exfalso; exact (split_chars_nonnil _ _ E2)|].
    cbn in IH |- *. now rewrite IH.
Qed.

Lemma js_split_hd_app (x y : string) :
  hd "" (js_split ","%char (x ++ "," ++ y)) = hd "" (js_split ","%char x).
Proof.
  unfold js_split. rewrite list_ascii_of_string_app. cbn [list_ascii_of_string append].
  pose proof (split_chars_hd_app ","%char (list_ascii_of_string x) (list_ascii_of_string y)) as H.
  destruct (split_chars ","%char (list_ascii_of_string x ++ ","%char :: list_ascii_of_string y)%list) as [|a l] eqn:E1;
    [exfalso; exact (split_chars_nonnil _ _ E1)|].
  destruct (split_chars ","%char (list_ascii_of_string x)) as [|b m] eqn:E2;
    [exfalso; exact (split_chars_nonnil _ _ E2)|].
  cbn in H |- *. now rewrite H.
Qed.

Lemma join_hd_split (x : string) (xs : list string) :
  hd "" (js_split ","%char (join ", " (x :: xs))) = hd "" (js_split ","%char x).
Proof.
  unfold join. destruct xs as [|x' xs]; [reflexivity|].
  change (String.concat ", " (x :: x' :: xs)) with (x ++ "," ++ (" " ++ String.concat ", " (x' :: xs))).
  apply js_split_hd_app.
Qed.

Lemma filter_none {A} (f : A -> bool) (l : list A) :
  forallb (fun h => negb (f h)) l = true -> filter f l = [].
Proof.
  induction l as [|h l IH]; cbn; [reflexivity|].
  destruct (f h); cbn; [discriminate|exact IH].
Qed.

(** X2. [getClientIp] never returns the empty string; without a
    [CF-Connecting-IP] header it returns the first comma-separated item,
    trimmed, of the first [X-Forwarded-For] header (header names compared
    case-insensitively, later values of the same header ignored), and
    ["Unknown IP"] when that item is empty. *)
Theorem getClientIp_first_forwarded :
  (forall hs, getClientIp hs <> "")
  /\ (forall pre name x post,
        forallb (fun h => negb (hdr_named "cf-connecting-ip" h)) (pre ++ (name, x) :: post) = true ->
        forallb (fun h => negb (hdr_named "x-forwarded-for" h)) pre = true ->
        string_lower_ascii name = "x-forwarded-for" ->
        getClientIp (pre ++ (name, x) :: post)%list
          = or_else (Some (js_trim (hd "" (js_split ","%char x)))) "Unknown IP").
Proof.
  split.
  - intro hs. unfold getClientIp. apply or_else_nonempty, or_else_nonempty. discriminate.
  - intros pre name x post Hcf Hpre Hname.
    assert (Ecf : headers_get (pre ++ (name, x) :: post)%list "CF-Connecting-IP" = None).
    { unfold headers_get. change (string_lower_ascii "CF-Connecting-IP") with "cf-connecting-ip".
      replace (filter _ _) with (@nil (string * string)); [reflexivity|].
      symmetry. apply (filter_none (hdr_named "cf-connecting-ip")). exact Hcf. }
    assert (Exf : exists rest, headers_get (pre ++ (name, x) :: post)%list "X-Forwarded-For"
                               = Some (join ", " (x :: rest))).
    { unfold headers_get. change (string_lower_ascii "X-Forwarded-For") with "x-forwarded-for".
      rewrite filter_app.
      replace (filter _ pre) with (@nil (string * string))
        by (symmetry; apply (filter_none (hdr_named "x-forwarded-for")); exact Hpre).
      cbn [app filter fst]. rewrite Hname, String.eqb_refl.
      eexists. reflexivity. }
    destruct Exf as [rest Exf].
    unfold getClientIp. rewrite Ecf, Exf. cbn [option_map or_else].
    rewrite join_hd_split. reflexivity.
Qed.

(* ------------------------------------------------------------------ *)
(** ** Movie lookup, likes and images *)


Lemma set_is_liked_map (v movieId : Z) (db : list MovieDbRow) :
  set_is_liked v movieId db =
  map (fun r => if Z.eqb (mv_id r) movieId then with_is_liked v r else r) db.
Proof. reflexivity. Qed.

Lemma find_map_same {A} (p : A -> bool) (f : A -> A) (l : list A) :
  (forall x, p (f x) = p x) -> find p (map f l) = option_map f (find p l).
Proof.
  intros Hp. induction l as [|x l IH]; cbn; [reflexivity|].
  rewrite Hp. destruct (p x); [reflexivity|exact IH].
Qed.

Lemma find_movie_set_is_liked (v movieId : Z) (db : list MovieDbRow) (s : string) :
  find_movie (set_is_liked v movieId db) s =
  option_map (fun r => if Z.eqb (mv_id r) movieId then with_is_liked v r else r) (find_movie db s).
Proof.
  unfold find_movie. rewrite set_is_liked_map.
  destruct (js_parseInt10 s); apply find_map_same; intros r;
    destruct (Z.eqb (mv_id r) movieId); reflexivity.
Qed.

Lemma set_is_liked_twice (v w movieId : Z) (db : list MovieDbRow) :
  set_is_liked v movieId (set_is_liked w movieId db) = set_is_liked v movieId db.
Proof.
  rewrite !set_is_liked_map, map_map. apply map_ext. intros r.
  destruct (Z.eqb (mv_id r) movieId) eqn:E; cbn [with_is_liked mv_id]; rewrite ?E; reflexivity.
Qed.

(** X4. Liking and unliking: an unknown movie gives 404 and changes nothing;
    a found movie (non-zero id) gets [is_liked = 1] on every row with its
    id and no other row changes; liking twice answers the same and
    changes nothing more; unliking afterwards gives the table with
    [is_liked = 0] on that id. *)
Theorem like_unlike_round_trip (db : list MovieDbRow) (s : string) :
  (find_movie db s = None ->
     postLike db s = (JsonResp 404 (JObj [("error", JStr "Movie not found")]), db)
     /\ deleteLike db s = (JsonResp 404 (JObj [("error", JStr "Movie not found")]), db))
  /\ (forall r, find_movie db s = Some r -> mv_id r <> 0%Z ->
       let liked := set_is_liked 1 (mv_id r) db in
       postLike db s = (JsonResp 200 (JObj [("message", JStr "Movie liked"); ("is_liked", JBool true)]), liked)
       /\ (forall r', In r' liked -> mv_id r' = mv_id r -> is_liked_flag r' = true)
       /\ filter (fun r' => negb (Z.eqb (mv_id r') (mv_id r))) liked
          = filter (fun r' => negb (Z.eqb (mv_id r') (mv_id r))) db
       /\ postLike liked s = (JsonResp 200 (JObj [("message", JStr "Movie liked"); ("is_liked", JBool true)]), liked)
       /\ deleteLike liked s =
            (JsonResp 200 (JObj [("message", JStr "Movie unliked"); ("is_liked", JBool false)]),
             set_is_liked 0 (mv_id r) db)).
Proof.
  split.
  - intros H. unfold postLike, deleteLike, set_like_handler. rewrite H. split; reflexivity.
  - intros r Hr Hid. cbv zeta.
    assert (Hr' : find_movie (set_is_liked 1 (mv_id r) db) s = Some (with_is_liked 1 r)).
    { rewrite find_movie_set_is_liked, Hr. cbn [option_map]. now rewrite Z.eqb_refl. }
    apply Z.eqb_neq in Hid.
    split; [|split; [|split; [|split]]].
    + unfold postLike, set_like_handler. rewrite Hr. cbv zeta. now rewrite Hid.
    + intros r' Hin Hid'. rewrite set_is_liked_map in Hin. apply in_map_iff in Hin as [r0 [<- _]].
      destruct (Z.eqb (mv_id r0) (mv_id r)) eqn:E; [reflexivity|].
      apply Z.eqb_neq in E. contradiction.
    + rewrite set_is_liked_map. clear Hr Hr'. induction db as [|r0 db IH]; [reflexivity|].
      cbn [map filter]. destruct (Z.eqb (mv_id r0) (mv_id r)) eqn:E; cbn [with_is_liked mv_id negb];
        rewrite ?E; cbn [negb]; [exact IH|now rewrite IH].
    + unfold postLike, set_like_handler. rewrite Hr'. cbn [with_is_liked mv_id]. rewrite Hid.
      now rewrite set_is_liked_twice.
    + unfold deleteLike, set_like_handler. rewrite Hr'. cbn [with_is_liked mv_id]. rewrite Hid.
      now rewrite set_is_liked_twice.
Qed.


(* ------------------------------------------------------------------ *)
(** ** [GET /stream] *)

Lemma parseJsonField_stringify_array (l : list json) :
  forallb json_wf l = true -> parseJsonField (Some (JStr (JSON_stringify (JArr l)))) = l.
Proof.
  intros Hl.
  pose proof (json_round_trip (JArr l) Hl (S (length (stringify (JArr l)))) []
                eq_refl (Nat.lt_succ_diag_r _)) as P.
  rewrite app_nil_r in P.
  assert (Hne : String.eqb (string_of_list_ascii (stringify (JArr l))) "" = false)
    by (cbn [stringify string_of_list_ascii]; reflexivity).
  unfold parseJsonField, JSON_stringify, JSON_parse. cbv zeta.
  rewrite Hne, list_ascii_of_string_of_list_ascii, P. reflexivity.
Qed.

Lemma parseJsonField_not_json (s : string) :
  s <> "" -> JSON_parse s = None ->
  parseJsonField (Some (JStr s))
  = map JStr (filter (fun t => negb (String.eqb t "")) (map js_trim (js_split ","%char s))).
Proof.
  intros Hs Hp. unfold parseJsonField. rewrite Hp.
  destruct (String.eqb_spec s "") as [E|_]; [contradiction | reflexivity].
Qed.

(** X6. The stream handler serves only the first entry of [strm_files]:
    for a JSON array whose first item is a non-empty string [p], or for a
    non-JSON comma list whose first non-blank item trims to [p], it serves
    the R2 object at [prefix/p] (doubled slashes collapsed) with a one-day
    cache.  ["[]"] gives 404 "No stream links available", and a NULL or
    empty [strm_files] gives 404 "Stream files metadata not found". *)
Theorem getStream_first_entry (basePrefix : string) (bucket : R2Bucket)
    (db : list MovieDbRow) (s : string) (r : MovieDbRow) (Hr : find_movie db s = Some r) :
  (forall p rest, p <> "" -> forallb json_wf (JStr p :: rest) = true ->
     mv_strm_files r = Some (JSON_stringify (JArr (JStr p :: rest))) ->
     getStream basePrefix true bucket db s
     = serveFileFromR2 bucket (replace_double_slash (basePrefix ++ "/" ++ p)) "public, max-age=86400")
  /\ (forall strm p rest, strm <> "" -> JSON_parse strm = None -> mv_strm_files r = Some strm ->
     filter (fun t => negb (String.eqb t "")) (map js_trim (js_split ","%char strm)) = p :: rest ->
     getStream basePrefix true bucket db s
     = serveFileFromR2 bucket (replace_double_slash (basePrefix ++ "/" ++ p)) "public, max-age=86400")
  /\ (mv_strm_files r = Some "[]" ->
     getStream basePrefix true bucket db s = FJson 404 (JObj [("error", JStr "No stream links available")]))
  /\ (mv_strm_files r = None \/ mv_strm_files r = Some "" ->
     getStream basePrefix true bucket db s
     = FJson 404 (JObj [("error", JStr "Stream files metadata not found for this movie")])).
Proof.
  unfold getStream. rewrite Hr. split; [|split; [|split]].
  - intros p rest Hp Hwf Hs. rewrite Hs.
    assert (Hne : String.eqb (JSON_stringify (JArr (JStr p :: rest))) "" = false)
      by reflexivity.
    rewrite Hne, (parseJsonField_stringify_array _ Hwf). cbn [stream_path_of_entry js_truthy].
    apply String.eqb_neq in Hp. rewrite Hp. reflexivity.
  - intros strm p rest Hne Hp Hs Hf. rewrite Hs.
    assert (Hp' : String.eqb p "" = false).
    { assert (In p (filter (fun t => negb (String.eqb t "")) (map js_trim (js_split ","%char strm))))
        as Hin by (rewrite Hf; left; reflexivity).
      apply filter_In in Hin as [_ Hin]. now destruct (String.eqb p ""). }
    apply String.eqb_neq in Hne as Hne'. rewrite Hne'.
    rewrite (parseJsonField_not_json _ Hne Hp), Hf. cbn [map stream_path_of_entry js_truthy].
    rewrite Hp'. reflexivity.
  - intros Hs. rewrite Hs. reflexivity.
  - intros [Hs|Hs]; rewrite Hs; reflexivity.
Qed.

(* ------------------------------------------------------------------ *)
(** ** Sorting, and [GET /genres] *)

Lemma insert_by_perm {A} (cmp : A -> A -> Z) (x : A) (l : list A) :
  Permutation (insert_by cmp x l) (x :: l).
Proof.
  induction l as [|y r IH]; simpl; [reflexivity|].
  destruct (cmp y x <=? 0)%Z; [|reflexivity].
  rewrite IH. apply perm_swap.
Qed.

Lemma sort_by_perm_acc {A} (cmp : A -> A -> Z) (l acc : list A) :
  Permutation (fold_left (fun acc x => insert_by cmp x acc) l acc) (l ++ acc).
Proof.
  revert acc; induction l as [|x r IH]; intros acc; simpl; [reflexivity|].
  rewrite IH, insert_by_perm. symmetry; apply Permutation_middle.
Qed.

Lemma sort_by_perm {A} (cmp : A -> A -> Z) (l : list A) : Permutation (sort_by cmp l) l.
Proof. unfold sort_by. rewrite sort_by_perm_acc, app_nil_r. reflexivity. Qed.

Section SortedInsert.
Context {A : Type} (cmp : A -> A -> Z) (R : A -> A -> Prop).
Hypothesis Hle : forall a b, (cmp a b <= 0)%Z -> R a b.
Hypothesis Hgt : forall a b, (cmp a b > 0)%Z -> R b a.

Lemma insert_by_sorted (x : A) (l : list A) : Sorted R l -> Sorted R (insert_by cmp x l).
Proof.
  induction l as [|y r IH]; intros Hs; simpl.
  - repeat constructor.
  - apply Sorted_inv in Hs as [Hr Hhd].
    destruct (Z.leb_spec (cmp y x) 0) as [H|H].
    + constructor; [now apply IH|].
      destruct r as [|z r']; simpl; [constructor; now apply Hle|].
      destruct (cmp z x <=? 0)%Z; constructor; [now inversion Hhd | now apply Hle].
    + constructor; [constructor; assumption|]. constructor. apply Hgt. lia.
Qed.

Lemma sort_by_sorted (l : list A) : Sorted R (sort_by cmp l).
Proof.
  unfold sort_by. assert (H0 : Sorted R []) by constructor. revert H0.
  generalize (@nil A). induction l as [|x r IH]; intros acc Hacc; simpl; [assumption|].
  apply IH, insert_by_sorted, Hacc.
Qed.

End SortedInsert.

Lemma code_unit_compare_gt (a b : string) : (code_unit_compare a b > 0)%Z -> (code_unit_compare b a <= 0)%Z.
Proof.
  unfold code_unit_compare. rewrite (String.compare_antisym b a).
  destruct (String.compare a b); simpl; lia.
Qed.

Lemma code_unit_compare_eq (a b : string) : code_unit_compare a b = 0%Z -> a = b.
Proof.
  unfold code_unit_compare. destruct (String.compare a b) eqn:E; try discriminate.
  intros _. now apply String.compare_eq_iff.
Qed.

Lemma sorted_le_nodup_lt (l : list string) :
  Sorted (fun a b => code_unit_compare a b <= 0)%Z l -> NoDup l ->
  Sorted (fun a b => code_unit_compare a b < 0)%Z l.
Proof.
  induction l as [|x r IH]; intros Hs Hn; [constructor|].
  apply Sorted_inv in Hs as [Hr Hhd]. inversion Hn as [|? ? Hx Hn']; subst.
  constructor; [now apply IH|].
  destruct r as [|y r']; constructor. inversion Hhd; subst.
  assert (code_unit_compare x y <> 0%Z).
  { intros E. apply code_unit_compare_eq in E. subst. apply Hx. left. reflexivity. }
  lia.
Qed.

(** [set_add] *)
Lemma set_add_In (x y : string) (s : list string) : In y (set_add x s) <-> y = x \/ In y s.
Proof.
  unfold set_add. destruct (existsb (String.eqb x) s) eqn:E.
  - apply existsb_exists in E as [z [Hz Ez]]. apply String.eqb_eq in Ez. subst z.
    split; [now right|]. intros [->|H]; assumption.
  - rewrite in_app_iff. simpl. intuition.
Qed.

Lemma set_add_NoDup (x : string) (s : list string) : NoDup s -> NoDup (set_add x s).
Proof.
  unfold set_add. destruct (existsb (String.eqb x) s) eqn:E; [auto|].
  intros Hs. apply NoDup_app; [assumption|repeat constructor; auto|].
  intros y Hy [->|[]]. assert (existsb (String.eqb y) s = true) as E'
    by (apply existsb_exists; exists y; split; [assumption|apply String.eqb_refl]).
  congruence.
Qed.

Lemma add_genre_names_some (gs : list json) : forall set set',
  add_genre_names set gs = Some set' -> NoDup set ->
  NoDup set' /\ forall g, In g set' <-> In g set \/ (g <> "" /\ exists s, In (JStr s) gs /\ js_trim s = g).
Proof.
  induction gs as [|v r IH]; intros set set' H Hn.
  - simpl in H. injection H as <-. split; [assumption|]. intros g. simpl. firstorder.
  - destruct v; simpl in H; try discriminate.
    + destruct (IH _ _ H Hn) as [Hn' Hin]. split; [assumption|]. intros g. rewrite Hin.
      split; [intros [?|[? [s [? ?]]]]; [now left|right; split; [assumption|exists s; simpl; auto]]|].
      intros [?|[? [s [[E|?] ?]]]]; [now left|discriminate|right; eauto].
    + destruct (String.eqb_spec (js_trim s) "") as [Et|Et]; simpl in H.
      * destruct (IH _ _ H Hn) as [Hn' Hin]. split; [assumption|]. intros g. rewrite Hin.
        split; [intros [?|[? [s' [? ?]]]]; [now left|right; split; [assumption|exists s'; simpl; auto]]|].
        intros [?|[? [s' [[E|?] ?]]]]; [now left| |right; eauto].
        injection E as ->. subst g. contradiction.
      * destruct (IH _ _ H (set_add_NoDup _ _ Hn)) as [Hn' Hin]. split; [assumption|]. intros g.
        rewrite Hin, set_add_In. split.
        -- intros [[->|?]|[? [s' [? ?]]]]; [right; split; [assumption|exists s; simpl; auto]
              |now left|right; split; [assumption|exists s'; simpl; auto]].
        -- intros [?|[? [s' [[E|?] ?]]]]; [left; now right| |right; eauto].
           injection E as ->. left. left. congruence.
Qed.

Lemma add_genre_names_none (gs : list json) : forall set,
  add_genre_names set gs = None <-> exists v, In v gs /\ genre_bad v.
Proof.
  induction gs as [|v r IH]; intros set.
  - split; [discriminate|intros [? [[] _]]].
  - destruct v as [|b|n d e|s|items|props]; cbn [add_genre_names];
      try (split; [intros _; eexists; split; [left; reflexivity|exact I]|intros _; reflexivity]);
      rewrite IH; (split; [intros [w [? ?]]; exists w; split; [now right|assumption]
                          |intros [w [[<-|?] ?]]; [contradiction|eauto]]).
Qed.

Lemma collect_genre_names_some (rows : list string) : forall set set',
  collect_genre_names set rows = Some set' -> NoDup set ->
  NoDup set' /\ forall g, In g set' <-> In g set \/
     (g <> "" /\ exists row s, In row rows /\ In (JStr s) (parseJsonField (Some (JStr row))) /\ js_trim s = g).
Proof.
  induction rows as [|row r IH]; intros set set' H Hn; cbn [collect_genre_names] in H.
  - injection H as <-. split; [assumption|]. intros g. split; [intros; now left|intros [?|[_ [? [? [[] _]]]]]; assumption].
  - destruct (add_genre_names set (parseJsonField (Some (JStr row)))) as [s1|] eqn:E1; [|discriminate].
    destruct (add_genre_names_some _ _ _ E1 Hn) as [Hn1 Hin1].
    destruct (IH _ _ H Hn1) as [Hn' Hin]. split; [assumption|]. intros g.
    rewrite Hin, Hin1. split.
    + intros [[?|[? [s [? ?]]]]|[? [row' [s [? ?]]]]]; [now left|right|right].
      * split; [assumption|]. exists row, s. split; [left; reflexivity|auto].
      * split; [assumption|]. exists row', s. split; [right; assumption|auto].
    + intros [?|[? [row' [s [[<-|?] ?]]]]]; [now left; left|left; right; eauto|right; eauto 7].
Qed.

Lemma collect_genre_names_none (rows : list string) : forall set,
  collect_genre_names set rows = None <->
  exists row v, In row rows /\ In v (parseJsonField (Some (JStr row))) /\ genre_bad v.
Proof.
  induction rows as [|row r IH]; intros set; cbn [collect_genre_names In].
  - split; [discriminate|intros [? [? [[] _]]]].
  - destruct (add_genre_names set (parseJsonField (Some (JStr row)))) as [s1|] eqn:E1.
    + rewrite IH. split; [intros [row' [v [? ?]]]; exists row', v; tauto|].
      intros [row' [v [[<-|?] ?]]]; [|eauto].
      exfalso. assert (add_genre_names set (parseJsonField (Some (JStr row))) = None) as E2
        by (apply add_genre_names_none; eauto). congruence.
    + split; [intros _|intros _; reflexivity]. apply add_genre_names_none in E1 as [v [? ?]].
      exists row, v. auto.
Qed.

(** X7. When [GET /genres] succeeds, its list is strictly increasing in
    code-unit order, has no duplicates, and holds exactly the non-empty
    trimmed string entries of the rows' genre lists, each as
    [{Name: g, Id: g}]. *)
Theorem getGenres_sorted_distinct (rows : list string) (out : list json) :
  getGenres rows = Some out ->
  exists names,
    out = map (fun g => JObj [("Name", JStr g); ("Id", JStr g)]) names
    /\ Sorted (fun a b => code_unit_compare a b < 0)%Z names
    /\ NoDup names
    /\ forall g, In g names <-> g <> "" /\
         exists row s, In row rows /\ In (JStr s) (parseJsonField (Some (JStr row))) /\ js_trim s = g.
Proof.
  unfold getGenres. destruct (collect_genre_names [] rows) as [set|] eqn:E; [|discriminate].
  intros H. injection H as <-.
  destruct (collect_genre_names_some _ _ _ E (NoDup_nil _)) as [Hn Hin].
  exists (sort_by code_unit_compare set).
  assert (Hn' : NoDup (sort_by code_unit_compare set))
    by (eapply Permutation_NoDup; [symmetry; apply sort_by_perm|exact Hn]).
  split; [reflexivity|split; [|split; [exact Hn'|]]].
  - apply sorted_le_nodup_lt; [|exact Hn'].
    apply sort_by_sorted; [tauto|]. intros a b Hab. now apply code_unit_compare_gt.
  - intros g. split.
    + intros Hg. apply (Permutation_in _ (sort_by_perm code_unit_compare set)), Hin in Hg.
      destruct Hg as [[]|Hg]; exact Hg.
    + intros Hg. apply (Permutation_in _ (Permutation_sym (sort_by_perm code_unit_compare set))).
      apply Hin. now right.
Qed.

(** X8. [GET /genres] throws (and [app.onError] answers) exactly when some
    row's genre list has an entry that is neither a string nor [null]. *)
Theorem getGenres_throws (rows : list string) :
  getGenres rows = None <->
  exists row v, In row rows /\ In v (parseJsonField (Some (JStr row))) /\
    match v with JStr _ | JNull => False | _ => True end.
Proof.
  unfold getGenres. pose proof (collect_genre_names_none rows []) as H. unfold genre_bad in H.
  destruct (collect_genre_names [] rows); rewrite <- H; split; congruence.
Qed.

(* ------------------------------------------------------------------ *)
(** ** [GET /studios] *)

Lemma studio_count_snoc (pre : list string) (r k : string) :
  studio_count (pre ++ [r]) k = (studio_count pre k + if String.eqb (js_trim r) k then 1 else 0)%nat.
Proof.
  unfold studio_count. rewrite filter_app, length_app. simpl.
  destruct (String.eqb (js_trim r) k); reflexivity.
Qed.

Lemma bump_count_keys (name : string) (m : list (string * StudioInfo)) (k : string) :
  In k (map fst (bump_count name m)) <-> k = name \/ In k (map fst m).
Proof.
  induction m as [|[k' e] r IH]; simpl; [intuition|].
  destruct (String.eqb_spec k' name) as [->|Hne]; simpl; [intuition|].
  rewrite IH. intuition.
Qed.

Lemma bump_count_NoDup (name : string) (m : list (string * StudioInfo)) :
  NoDup (map fst m) -> NoDup (map fst (bump_count name m)).
Proof.
  induction m as [|[k' e] r IH]; simpl; intros Hn; [repeat constructor; auto|].
  inversion Hn as [|? ? Hk Hr]; subst.
  destruct (String.eqb_spec k' name) as [->|Hne]; simpl; constructor; auto.
  rewrite bump_count_keys. intuition.
Qed.

Lemma bump_count_In (name : string) (m : list (string * StudioInfo)) (k : string) (e : StudioInfo) :
  NoDup (map fst m) -> In (k, e) (bump_count name m) ->
  (k <> name /\ In (k, e) m)
  \/ (k = name /\ exists e0, In (k, e0) m /\ e = mkStudioInfo (st_Name e0) (st_Id e0) (st_MovieCount e0 + 1))
  \/ (k = name /\ e = mkStudioInfo name name 1 /\ ~ In name (map fst m)).
Proof.
  induction m as [|[k' e'] r IH]; simpl; intros Hn.
  - intros [H|[]]. injection H as <- <-. right; right. auto.
  - inversion Hn as [|? ? Hk Hr]; subst.
    destruct (String.eqb_spec k' name) as [->|Hne].
    + intros [H|H].
      * injection H as <- <-. right; left. split; [reflexivity|]. exists e'. auto.
      * left. split; [|now right]. intros ->. apply Hk.
        apply in_map_iff. exists (name, e). auto.
    + intros [H|H].
      * injection H as <- <-. left. auto.
      * destruct (IH Hr H) as [[? ?]|[[? [e0 [? ?]]]|[? [? ?]]]].
        -- left. auto.
        -- right; left. split; [assumption|]. exists e0. auto.
        -- right; right. split; [assumption|]. split; [assumption|]. intuition.
Qed.

Lemma studio_step_inv (m : list (string * StudioInfo)) (pre : list string) (r : string) :
  studio_map_inv m pre -> studio_map_inv (studio_step m r) (pre ++ [r]).
Proof.
  intros [Hn [He Hk]]. unfold studio_step.
  destruct (String.eqb_spec (js_trim r) "") as [Hemp|Hemp]; cbn [negb].
  2: destruct (inherited_key (js_trim r)) eqn:Hinh.
  1,2: split; [assumption|]; split;
       [ intros k e Hin; destruct (He k e Hin) as [? [? [Hk0 [Hk1 Hc]]]];
         rewrite studio_count_snoc;
         destruct (String.eqb_spec (js_trim r) k); [congruence|]; rewrite Nat.add_0_r; auto
       | intros k Hk0 Hk1 Hc; rewrite studio_count_snoc in Hc;
         destruct (String.eqb_spec (js_trim r) k); [congruence|]; rewrite Nat.add_0_r in Hc; auto ].
  split; [|split].
  - now apply bump_count_NoDup.
  - intros k e Hin. rewrite studio_count_snoc.
    destruct (bump_count_In _ _ _ _ Hn Hin) as [[Hne Hin']|[[-> [e0 [Hin' ->]]]|[-> [-> Hnot]]]].
    + destruct (He k e Hin') as [? [? [? [? Hc]]]].
      destruct (String.eqb_spec (js_trim r) k); [congruence|]. rewrite Nat.add_0_r. auto.
    + destruct (He _ e0 Hin') as [? [? [? [? Hc]]]]. rewrite String.eqb_refl. simpl.
      repeat split; auto. rewrite Hc. lia.
    + rewrite String.eqb_refl. simpl.
      assert (studio_count pre (js_trim r) = 0%nat) as H0.
      { destruct (studio_count pre (js_trim r)) eqn:Ec; [reflexivity|].
        exfalso. apply Hnot, Hk; [assumption|assumption|lia]. }
      rewrite H0. auto.
  - intros k Hk0 Hk1 Hc. apply bump_count_keys.
    destruct (String.eqb_spec (js_trim r) k) as [->|Hne]; [now left|].
    rewrite studio_count_snoc in Hc. destruct (String.eqb_spec (js_trim r) k); [congruence|].
    right. apply Hk; auto. lia.
Qed.

Lemma studio_fold_inv (rows : list string) : forall m pre,
  studio_map_inv m pre -> studio_map_inv (fold_left studio_step rows m) (pre ++ rows).
Proof.
  induction rows as [|r rs IH]; intros m pre H; simpl; [now rewrite app_nil_r|].
  replace (pre ++ r :: rs)%list with ((pre ++ [r]) ++ rs)%list by (rewrite <- app_assoc; reflexivity).
  apply IH, studio_step_inv, H.
Qed.

Lemma studio_map_inv_nil : studio_map_inv [] [].
Proof.
  split; [constructor|split]; [intros k e []|intros k _ _ H; cbn in H; lia].
Qed.

Lemma filter_split_perm {A} (f g : A -> bool) (l : list A) :
  (forall x, g x = negb (f x)) -> Permutation (filter f l ++ filter g l) l.
Proof.
  intros Hg. induction l as [|x r IH]; simpl; [reflexivity|].
  rewrite Hg. destruct (f x); simpl.
  - now apply perm_skip.
  - rewrite <- Permutation_middle. now apply perm_skip.
Qed.

Lemma object_values_order_perm {A} (m : list (string * A)) : Permutation (object_values_order m) m.
Proof.
  unfold object_values_order. rewrite sort_by_perm.
  apply filter_split_perm. intros [k v]. simpl. now destruct (array_index_value k).
Qed.

(** X11. [GET /studios] lists distinct names with [Id = Name]; each
    [MovieCount] is the number of rows whose trimmed studio is that name;
    every non-empty trimmed name is listed unless it is a property name of
    [Object.prototype] (such as "constructor"), which is never listed. *)
Theorem getStudios_counts (localeCompare : string -> string -> Z) (rows : list string) :
  let out := getStudios localeCompare rows in
  NoDup (map st_Name out)
  /\ (forall e, In e out ->
        st_Id e = st_Name e /\ st_Name e <> "" /\ inherited_key (st_Name e) = false
        /\ st_MovieCount e = Z.of_nat (studio_count rows (st_Name e)))
  /\ (forall name, name <> "" -> inherited_key name = false -> (studio_count rows name > 0)%nat ->
        exists e, In e out /\ st_Name e = name).
Proof.
  cbv zeta. unfold getStudios.
  pose proof (studio_fold_inv rows [] [] studio_map_inv_nil) as [Hn [He Hk]].
  set (m := fold_left studio_step rows []) in *.
  assert (P : Permutation (sort_by (studio_compare localeCompare) (map snd (object_values_order m)))
                          (map snd m))
    by (rewrite sort_by_perm; apply Permutation_map, object_values_order_perm).
  split; [|split].
  - eapply Permutation_NoDup; [symmetry; apply Permutation_map, P|].
    rewrite map_map. erewrite map_ext_in; [exact Hn|].
    intros [k e] Hin. simpl. now destruct (He k e Hin).
  - intros e Hin. apply (Permutation_in _ P), in_map_iff in Hin as [[k e'] [<- Hin]].
    simpl. destruct (He k e' Hin) as [Hn' [Hi ?]]. rewrite Hi, Hn'. tauto.
  - intros name H0 H1 H2. pose proof (Hk name H0 H1 H2) as Hkn0. apply in_map_iff in Hkn0 as [[k e] [Hkn Hin]].
    simpl in Hkn. subst k. exists e. split.
    + apply (Permutation_in _ (Permutation_sym P)), in_map_iff. exists (name, e). auto.
    + now destruct (He name e Hin).
Qed.

(** X12. [GET /studios] is sorted by [MovieCount], largest first, whatever
    [localeCompare] does on ties. *)
Theorem getStudios_sorted (localeCompare : string -> string -> Z) (rows : list string) :
  Sorted (fun a b => st_MovieCount b <= st_MovieCount a)%Z (getStudios localeCompare rows).
Proof.
  unfold getStudios. apply sort_by_sorted; unfold studio_compare; intros a b H;
    destruct (Z.eqb_spec (st_MovieCount b - st_MovieCount a) 0); lia.
Qed.

(* ------------------------------------------------------------------ *)
(** ** [GET /libraries] *)

Lemma split_on_nonnil (sep : ascii -> bool) (l : list ascii) : split_on sep l <> [].
Proof.
  destruct l as [|c r]; simpl; [discriminate|].
  destruct (sep c); [discriminate|]. destruct (split_on sep r); discriminate.
Qed.

Lemma split_on_free (sep : ascii -> bool) (l : list ascii) :
  forallb (fun c => negb (sep c)) l = true -> split_on sep l = [l].
Proof.
  induction l as [|c r IH]; simpl; [reflexivity|].
  intros H. apply andb_true_iff in H as [Hc Hr].
  destruct (sep c); [discriminate|]. rewrite (IH Hr). reflexivity.
Qed.

Lemma split_on_single (sep : ascii -> bool) (l x : list ascii) : split_on sep l = [x] -> l = x.
Proof.
  revert x. induction l as [|c r IH]; intros x; simpl.
  - intros H. now injection H.
  - pose proof (split_on_nonnil sep r) as Hnn.
    destruct (sep c); [destruct (split_on sep r); [contradiction|discriminate]|].
    destruct (split_on sep r) as [|x' xs] eqn:E; [contradiction|].
    intros H. injection H as <- ->. now rewrite (IH x' eq_refl).
Qed.

Lemma split_on_last (sep : ascii -> bool) (l : list ascii) :
  exists pre, l = (pre ++ last (split_on sep l) [])%list
    /\ forallb (fun c => negb (sep c)) (last (split_on sep l) []) = true
    /\ (pre = [] \/ exists p c, pre = (p ++ [c])%list /\ sep c = true).
Proof.
  induction l as [|c r IH].
  - exists []. simpl. auto.
  - destruct IH as [pre [Hr [Hfree Hpre]]]. cbn [split_on].
    pose proof (split_on_nonnil sep r) as Hnn.
    destruct (sep c) eqn:Hc.
    + exists (c :: pre). destruct (split_on sep r) as [|x xs]; [contradiction|].
      change (last ([] :: x :: xs) []) with (last (x :: xs) []).
      split; [simpl; now f_equal|split; [assumption|right]].
      destruct Hpre as [->|[p [c' [-> Hc']]]].
      * exists [], c. auto.
      * exists (c :: p), c'. auto.
    + destruct (split_on sep r) as [|x xs] eqn:Es; [contradiction|].
      destruct xs as [|y ys].
      * cbn [last] in *. exists [].
        assert (pre = []) as ->.
        { apply split_on_single in Es. subst x. destruct pre as [|a p]; [reflexivity|].
          apply (f_equal (@length ascii)) in Hr. simpl in Hr. rewrite length_app in Hr. lia. }
        simpl in Hr. subst r. simpl. rewrite Hc, Hfree. auto.
      * change (last ((c :: x) :: y :: ys) []) with (last (x :: y :: ys) []).
        exists (c :: pre). split; [simpl; now f_equal|split; [assumption|right]].
        destruct Hpre as [->|[p [c' [-> Hc']]]].
        -- exfalso. assert (forallb (fun c => negb (sep c)) r = true) as Hrf by (rewrite Hr; exact Hfree).
           rewrite (split_on_free sep r Hrf) in Es. discriminate.
        -- exists (c :: p), c'. auto.
Qed.

Lemma last_map_string (l : list (list ascii)) :
  last (map string_of_list_ascii l) "" = string_of_list_ascii (last l []).
Proof.
  induction l as [|x [|y r] IH]; [reflexivity|reflexivity|].
  change (last (map string_of_list_ascii (x :: y :: r)) "") with (last (map string_of_list_ascii (y :: r)) "").
  rewrite IH. reflexivity.
Qed.

(** X9. A library's display name is the text after the last [/] or
    [\] of its path; it is the whole path when the path ends in a
    separator, and it is never empty for a non-empty path. *)
Theorem library_name_last_segment (fullPath : string) :
  (fullPath <> "" -> library_name fullPath <> "")
  /\ (forall p c, list_ascii_of_string fullPath = (p ++ [c])%list -> is_path_sep c = true ->
        library_name fullPath = fullPath)
  /\ (forall p c, list_ascii_of_string fullPath = (p ++ [c])%list -> is_path_sep c = false ->
        exists pre, list_ascii_of_string fullPath = (pre ++ list_ascii_of_string (library_name fullPath))%list
          /\ forallb (fun c => negb (is_path_sep c)) (list_ascii_of_string (library_name fullPath)) = true
          /\ (pre = [] \/ exists p' c', pre = (p' ++ [c'])%list /\ is_path_sep c' = true)).
Proof.
  unfold library_name. rewrite last_map_string.
  destruct (split_on_last is_path_sep (list_ascii_of_string fullPath)) as [pre [Hl [Hfree Hpre]]].
  set (L := last (split_on is_path_sep (list_ascii_of_string fullPath)) []) in *.
  split; [|split].
  - intros Hne. apply or_else_nonempty, Hne.
  - intros p c Hpc Hc. cbn [or_else].
    assert (L = []) as ->.
    { destruct L as [|a L'] using rev_ind; [reflexivity|].
      rewrite Hpc, app_assoc in Hl. apply app_inj_tail in Hl as [_ <-].
      rewrite forallb_app in Hfree. simpl in Hfree. rewrite Hc in Hfree.
      now rewrite andb_false_r in Hfree. }
    reflexivity.
  - intros p c Hpc Hc.
    assert (L <> []) as HL.
    { intros E. rewrite E, app_nil_r in Hl. subst pre.
      destruct Hpre as [E'|[p' [c' [E' Hc']]]].
      - rewrite Hpc in E'. now destruct p.
      - rewrite Hpc in E'. apply app_inj_tail in E' as [_ <-]. congruence. }
    cbn [or_else]. destruct (String.eqb_spec (string_of_list_ascii L) "") as [E|_].
    + exfalso. apply HL. rewrite <- (list_ascii_of_string_of_list_ascii L), E. reflexivity.
    + rewrite list_ascii_of_string_of_list_ascii. exists pre. auto.
Qed.

(** X10. [GET /libraries] lists every row once, with [Id] the path and
    [Name] its last segment, sorted by [Name] under any [localeCompare]
    whose sign is antisymmetric. *)
Theorem getLibraries_ids (localeCompare : string -> string -> Z) (rows : list string) :
  Permutation (map lib_Id (getLibraries localeCompare rows)) rows
  /\ (forall e, In e (getLibraries localeCompare rows) -> lib_Name e = library_name (lib_Id e))
  /\ ((forall a b, (localeCompare a b > 0)%Z -> (localeCompare b a <= 0)%Z) ->
      Sorted (fun a b => localeCompare (lib_Name a) (lib_Name b) <= 0)%Z (getLibraries localeCompare rows)).
Proof.
  unfold getLibraries.
  pose proof (sort_by_perm (fun a b => localeCompare (lib_Name a) (lib_Name b))
                (map (fun fullPath => mkLibraryInfo (library_name fullPath) fullPath) rows)) as P.
  split; [|split].
  - rewrite P, map_map. simpl. rewrite map_id. reflexivity.
  - intros e Hin. apply (Permutation_in _ P), in_map_iff in Hin as [fp [<- _]]. reflexivity.
  - intros Hanti. apply sort_by_sorted; [tauto|]. intros a b H. now apply Hanti.
Qed.

(* ------------------------------------------------------------------ *)
(** ** [POST /login] *)

(** X13. With the right login code and a non-empty session secret, and a
    JWT library whose [verify] accepts what [sign] produced, [POST /login]
    redirects home with a cookie token that [requireLogin] then lets
    through on every path. *)
Theorem postLogin_session (sign : JwtPayload -> string -> string)
    (verify : string -> string -> option JwtPayload) (code k path : string) :
  k <> "" -> sign (mkJwtPayload true) k <> "" ->
  verify (sign (mkJwtPayload true) k) k = Some (mkJwtPayload true) ->
  exists token, postLogin sign (Some code) (Some k) (Some code) = LoginRedirectHome token
    /\ requireLogin (verifyJwt verify (Some k)) path (Some token) = PassToNext.
Proof.
  intros Hk Hs Hv. exists (sign (mkJwtPayload true) k). split.
  - unfold postLogin, generateJwt. rewrite String.eqb_refl.
    apply String.eqb_neq in Hk. now rewrite Hk.
  - unfold requireLogin, verifyJwt. apply String.eqb_neq in Hs. rewrite Hs, Hv.
    now destruct (existsb _ allowedPaths).
Qed.


(* ------------------------------------------------------------------ *)
(** ** Instances on concrete requests *)

Lemma getClientIp_first_forwarded_witness :
  getClientIp [("x-forwarded-for", "203.0.113.7, 10.0.0.1"); ("X-Forwarded-For", "198.51.100.2")]
  = "203.0.113.7".
Proof.
  refine (eq_trans (proj2 getClientIp_first_forwarded [] "x-forwarded-for" "203.0.113.7, 10.0.0.1"
            [("X-Forwarded-For", "198.51.100.2")] _ _ _) _); vm_compute; reflexivity.
Defined.


Lemma like_unlike_round_trip_witness :
  find_movie example_db "tt123" = Some example_row7
  /\ deleteLike (set_is_liked 1 7 example_db) "tt123"
     = (JsonResp 200 (JObj [("message", JStr "Movie unliked"); ("is_liked", JBool false)]),
        set_is_liked 0 7 example_db).
Proof.
  split; [vm_compute; reflexivity|].
  refine (proj2 (proj2 (proj2 (proj2 (proj2 (like_unlike_round_trip example_db "tt123")
            example_row7 _ _))))); vm_compute; [reflexivity|discriminate].
Defined.


Lemma getStream_first_entry_witness :
  getStream "movies" true example_bucket example_db "7"
  = serveFileFromR2 example_bucket "movies/video/alpha.mp4" "public, max-age=86400".
Proof.
  refine (proj1 (getStream_first_entry "movies" example_bucket example_db "7" example_row7 _)
            "/video/alpha.mp4" [JStr "/video/alpha-2.mp4"] _ _ _); vm_compute; first [reflexivity|discriminate].
Defined.

Lemma getGenres_sorted_distinct_witness :
  getGenres ["Drama, Action "; "Comedy,Drama, "]
    = Some (map (fun g => JObj [("Name", JStr g); ("Id", JStr g)]) ["Action"; "Comedy"; "Drama"])
  /\ exists names,
    map (fun g => JObj [("Name", JStr g); ("Id", JStr g)]) ["Action"; "Comedy"; "Drama"]
      = map (fun g => JObj [("Name", JStr g); ("Id", JStr g)]) names
    /\ Sorted (fun a b => code_unit_compare a b < 0)%Z names
    /\ NoDup names
    /\ forall g, In g names <-> g <> "" /\
         exists row s, In row ["Drama, Action "; "Comedy,Drama, "]
           /\ In (JStr s) (parseJsonField (Some (JStr row))) /\ js_trim s = g.
Proof.
  split; [vm_compute; reflexivity|].
  apply getGenres_sorted_distinct. vm_compute. reflexivity.
Defined.

Lemma library_name_last_segment_witness :
  library_name "/mnt/media/" = "/mnt/media/"
  /\ exists pre, list_ascii_of_string "/mnt/media/Movies"
       = (pre ++ list_ascii_of_string (library_name "/mnt/media/Movies"))%list
     /\ forallb (fun c => negb (is_path_sep c)) (list_ascii_of_string (library_name "/mnt/media/Movies")) = true
     /\ (pre = [] \/ exists p' c', pre = (p' ++ [c'])%list /\ is_path_sep c' = true).
Proof.
  split.
  - apply (proj1 (proj2 (library_name_last_segment "/mnt/media/")) (list_ascii_of_string "/mnt/media") "/"%char);
      vm_compute; reflexivity.
  - apply (proj2 (proj2 (library_name_last_segment "/mnt/media/Movies")) (list_ascii_of_string "/mnt/media/Movie") "s"%char);
      vm_compute; reflexivity.
Defined.

Lemma getLibraries_ids_witness :
  Sorted (fun a b => code_unit_compare (lib_Name a) (lib_Name b) <= 0)%Z
    (getLibraries code_unit_compare ["/b/Zeta"; "/a/Alpha"; "/c/"]).
Proof.
  apply (proj2 (proj2 (getLibraries_ids code_unit_compare ["/b/Zeta"; "/a/Alpha"; "/c/"]))).
  exact code_unit_compare_gt.
Defined.

Lemma getStudios_counts_witness :
  exists e, In e (getStudios code_unit_compare [" Pixar "; "Pixar"; "constructor"; ""; "A24"])
    /\ st_Name e = "Pixar".
Proof.
  apply (proj2 (proj2 (getStudios_counts code_unit_compare [" Pixar "; "Pixar"; "constructor"; ""; "A24"])) "Pixar");
    [discriminate|vm_compute; reflexivity|apply Nat.ltb_lt; vm_compute; reflexivity].
Defined.

Lemma postLogin_session_witness :
  exists token, postLogin example_sign (Some "open-sesame") (Some "s3cret") (Some "open-sesame")
      = LoginRedirectHome token
    /\ requireLogin (verifyJwt example_verify (Some "s3cret")) "/movies" (Some token) = PassToNext.
Proof.
  apply postLogin_session; vm_compute; first [reflexivity|discriminate].
Defined.

